(** * orange: the request-resolution engine of the range client (client.go)

    A shallow embedding of [NewClient], [query], [getFromRangeServer],
    [getQuery], [putQuery] and [readAndClose].  The Go code talks to the
    outside world (HTTP transport, response bodies, the clock, the caller's
    context); the embedding threads an explicit world state [W] through
    every such call and records what was done in a trace. *)

From stdpp Require Import base strings list gmap.
From Stdlib Require Import ZArith Lia Ascii.

(** ** Errors *)

(** The values of Go's [error] interface that the client produces or passes
    on.  [ErrStatusNotOK] and [ErrRangeException] are the two struct types
    client.go builds (with exactly these fields); [Errorf] stands for
    [fmt.Errorf format args...]; [ErrExternal] is any error handed to the
    client by the context, the transport or a response body. *)
Inductive error : Type :=
  | ErrStatusNotOK (Status : string) (StatusCode : Z)
  | ErrRangeException (Message : string)
  | Errorf (format : string) (args : list Z)
  | ErrExternal (msg : string).

(** The value carried by a Go [panic]. *)
Inductive panic_value : Type :=
  | UnsupportedMethod (method : string).

(** ** Constants *)

Definition defaultQueryLengthThreshold : nat := 4096.

Definition MethodGet : string := "GET".
Definition MethodPut : string := "PUT".

Definition StatusOK : Z := 200.
Definition StatusMethodNotAllowed : Z := 405.
Definition StatusRequestURITooLong : Z := 414.

(** [http.Header] is a [map[string][]string].  [Header.Get] returns the
    first value stored under the canonical form of the key, or the empty
    string; [Header.Add] appends under the canonical form of the key. *)
Definition Header_Get (h : gmap string (list string)) (canonical_key : string) : string :=
  match h !! canonical_key with
  | Some (v :: _) => v
  | _ => ""
  end.

Definition Header_Add (h : gmap string (list string)) (canonical_key value : string)
  : gmap string (list string) :=
  <[canonical_key := default [] (h !! canonical_key) ++ [value]]> h.

(** Canonical MIME form of the literal ["RangeException"] that client.go
    passes to [Header.Get]. *)
Definition RangeExceptionKey : string := "Rangeexception".
Definition ContentTypeKey : string := "Content-Type".

(** Go's [int] on a 64-bit platform: [attempts++] with its wrap-around. *)
Definition int_incr (n : Z) : Z := ((n + 1 + 2 ^ 63) mod 2 ^ 64 - 2 ^ 63)%Z.

(** ** The round-robin server list *)

(** Modelled from the spec: roundRobinStrings, newRoundRobinStrings and Next
    are not in client.go.  The server list is an ordered, non-empty sequence
    of addresses, construction fails on an empty list, and the rotation
    cursor is an index advanced modulo the list length on each [Next], which
    returns the addresses in round-robin order starting with the first. *)
Record roundRobinStrings : Type := mkRoundRobin {
  strings : list string;
  cursor : nat;
}.

Definition newRoundRobinStrings (servers : list string) : roundRobinStrings + error :=
  match servers with
  | [] => inr (Errorf "cannot create round robin strings without at least one string" [])
  | _ :: _ => inl (mkRoundRobin servers 0)
  end.

Definition roundRobinStrings_Next (rr : roundRobinStrings) : string * roundRobinStrings :=
  (default "" (strings rr !! cursor rr),
   mkRoundRobin (strings rr) (S (cursor rr) mod length (strings rr))).

Section Model.

Context {W : Type}.

(** ** Contexts, requests, responses *)

(** A [context.Context] as the client observes it: in world [w] the channel
    [ctx.Done()] is closed exactly when [ctx w = Some e], and then
    [ctx.Err()] is [e]. *)
Definition Ctx : Type := W → option error.

Definition Background : Ctx := λ _, None.

(** An [io.ReadCloser]: what [ioutil.ReadAll] yields on it (the bytes read
    so far and the read error, if any) and what [Close] returns. *)
Record ReadCloser : Type := mkReadCloser {
  ReadAll : W → (list Byte.byte * option error) * W;
  Close : W → option error * W;
}.

Record Request : Type := mkRequest {
  Method : string;
  URL : string;
  reqHeader : gmap string (list string);
  reqBody : option string;
  reqCtx : Ctx;
}.

Record Response : Type := mkResponse {
  Status : string;
  StatusCode : Z;
  respHeader : gmap string (list string);
  Body : ReadCloser;
}.

(** The [Doer] interface, whose one method [Do] takes a request and returns
    a response and an error.  A call yields a response or an error (never
    both nil) and changes the world. *)
Definition Doer : Type := Request → W → (Response + error) * W.

Definition WithContext (request : Request) (ctx : Ctx) : Request :=
  mkRequest (Method request) (URL request) (reqHeader request) (reqBody request) ctx.

(** ** What the client takes from outside client.go *)

Class Runtime : Type := {
  (** [net/url.QueryEscape] *)
  url_QueryEscape : string → string;
  (** the error, if any, with which [http.NewRequest] rejects a URL *)
  url_ParseError : string → option error;
  (** [time.Sleep] *)
  time_Sleep : Z → W → W;
  (** the [&http.Client{...}] that [NewClient] builds when the
      configuration has no HTTPClient *)
  http_DefaultClient : Doer;
  (** Modelled from the spec: makeRetryCallback is not in client.go; it is
      the default retry policy, built from the number of servers. *)
  makeRetryCallback : nat → error → bool;
}.

Context `{RT : Runtime}.

Definition NewRequest (method url : string) (body : option string) : Request + error :=
  match url_ParseError url with
  | Some err => inr err
  | None => inl (mkRequest method url ∅ body Background)
  end.

(** ** State, trace and the monad of effects *)

(** What the client did, in order. *)
Inductive Event : Type :=
  | EvNext (addr : string)
  | EvDo (request : Request)
  | EvReadAll
  | EvClose
  | EvSleep (d : Z).

(** [rrs] is the object [c.servers] points to; [world] is the outside
    world; [trace] lists the calls made so far and [seen] the worlds passed
    through, oldest first (both only recorded, never read by the client). *)
Record State : Type := mkState {
  rrs : roundRobinStrings;
  world : W;
  trace : list Event;
  seen : list W;
}.

Inductive Res (A : Type) : Type :=
  | Val (a : A) (s : State)
  | Panic (v : panic_value) (s : State).
Global Arguments Val {A} a s.
Global Arguments Panic {A} v s.

Definition M (A : Type) : Type := State → Res A.

Global Instance M_ret : MRet M := λ A a s, Val a s.
Global Instance M_bind : MBind M := λ A B f m s,
  match m s with
  | Val a s' => f a s'
  | Panic v s' => Panic v s'
  end.

Definition panic {A : Type} (v : panic_value) : M A := λ s, Panic v s.

(** The state and the value with which a computation ended. *)
Definition state_of {A : Type} (r : Res A) : State :=
  match r with
  | Val _ s | Panic _ s => s
  end.

Definition value_of {A : Type} (r : Res A) : option A :=
  match r with
  | Val a _ => Some a
  | Panic _ _ => None
  end.

Definition emit (ev : Event) (s : State) : State :=
  mkState (rrs s) (world s) (trace s ++ [ev]) (seen s).

Definition advance (w : W) (s : State) : State :=
  mkState (rrs s) w (trace s) (seen s ++ [w]).

(** [c.servers.Next()] *)
Definition Next : M string := λ s,
  let '(addr, rr) := roundRobinStrings_Next (rrs s) in
  Val addr (emit (EvNext addr) (mkState rr (world s) (trace s) (seen s))).

(** The non-blocking [select { case <-ctx.Done(): ...; default: }]. *)
Definition ctx_Done (ctx : Ctx) : M (option error) := λ s, Val (ctx (world s)) s.

(** [httpClient.Do(request)] *)
Definition Do (d : Doer) (request : Request) : M (Response + error) := λ s,
  let '(r, w) := d request (world s) in
  Val r (advance w (emit (EvDo request) s)).

Definition ioutil_ReadAll (rc : ReadCloser) : M (list Byte.byte * option error) := λ s,
  let '(r, w) := ReadAll rc (world s) in
  Val r (advance w (emit EvReadAll s)).

Definition rc_Close (rc : ReadCloser) : M (option error) := λ s,
  let '(r, w) := Close rc (world s) in
  Val r (advance w (emit EvClose s)).

Definition Sleep (d : Z) : M unit := λ s,
  Val tt (advance (time_Sleep d (world s)) (emit (EvSleep d) s)).

(** ** The client *)

Record Config : Type := mkConfig {
  HTTPClient : option Doer;
  RetryCallback : option (error → bool);
  RetryCount : Z;
  RetryPause : Z;
  Servers : list string;
}.

(** [servers] is the round-robin object as [NewClient] allocated it; while
    the client runs, its current value is the [rrs] of the state. *)
Record Client : Type := mkClient {
  httpClient : Doer;
  servers : roundRobinStrings;
  retryCallback : error → bool;
  retryCount : Z;
  retryPause : Z;
}.

Definition NewClient (config : Config) : option Client * option error :=
  if (RetryCount config <? 0)%Z then
    (None, Some (Errorf "cannot create Querier with negative RetryCount: %d" [RetryCount config]))
  else if (RetryPause config <? 0)%Z then
    (None, Some (Errorf "cannot create Querier with negative RetryPause: %s" [RetryPause config]))
  else
    match newRoundRobinStrings (Servers config) with
    | inr _ =>
        (None, Some (Errorf "cannot create Querier without at least one range server address" []))
    | inl rrs =>
        let retryCallback :=
          match RetryCallback config with
          | Some f => f
          | None => makeRetryCallback (length (Servers config))
          end in
        let httpClient :=
          match HTTPClient config with
          | Some d => d
          | None => http_DefaultClient
          end in
        (Some (mkClient httpClient rrs retryCallback (RetryCount config) (RetryPause config)), None)
    end.

Definition getQuery (c : Client) (ctx : Ctx) (url : string) : M (Response + error) :=
  match NewRequest MethodGet url None with
  | inr err => mret (inr err)
  | inl request => Do (httpClient c) (WithContext request ctx)
  end.

(** [form.Encode()] of [url.Values{"query": []string{expression}}] is
    [query=] followed by the escaped expression. *)
Definition putQuery (c : Client) (ctx : Ctx) (endpoint expression : string)
  : M (Response + error) :=
  match NewRequest MethodPut endpoint (Some ("query=" +:+ url_QueryEscape expression)) with
  | inr err => mret (inr err)
  | inl request =>
      let request :=
        mkRequest (Method request) (URL request)
          (Header_Add (reqHeader request) ContentTypeKey "application/x-www-form-urlencoded")
          (reqBody request) (reqCtx request) in
      Do (httpClient c) (WithContext request ctx)
  end.

Definition readAndClose (rc : ReadCloser) : M (list Byte.byte * option error) :=
  '(buf, rerr) ← ioutil_ReadAll rc;
  cerr ← rc_Close rc;
  match rerr with
  | Some err => mret ([], Some err)
  | None =>
      match cerr with
      | Some err => mret ([], Some err)
      | None => mret (buf, None)
      end
  end.

(** The [switch method] that sends one attempt. *)
Definition send (c : Client) (ctx : Ctx) (endpoint uri expression method : string)
  : M (Response + error) :=
  if String.eqb method MethodGet then getQuery c ctx uri
  else if String.eqb method MethodPut then putQuery c ctx endpoint expression
  else panic (UnsupportedMethod method).

(** The [for triesRemaining := 2; triesRemaining > 0; triesRemaining--]
    loop of [getFromRangeServer], entered with [triesRemaining] tries left,
    the current [method] and the last status error [herr]. *)
Fixpoint getFromRangeServer_loop (c : Client) (ctx : Ctx) (endpoint uri expression : string)
    (triesRemaining : nat) (method : string) (herr : option error)
  : M (list Byte.byte * option error) :=
  match triesRemaining with
  | O => mret ([], herr)
  | S triesRemaining' =>
      done ← ctx_Done ctx;
      match done with
      | Some err => mret ([], Some err)
      | None =>
          r ← send c ctx endpoint uri expression method;
          match r with
          | inr err => mret ([], Some err)
          | inl response =>
              if (StatusCode response =? StatusOK)%Z then
                let message := Header_Get (respHeader response) RangeExceptionKey in
                if negb (String.eqb message "") then
                  mret ([], Some (ErrRangeException message))
                else readAndClose (Body response)
              else if (StatusCode response =? StatusRequestURITooLong)%Z then
                getFromRangeServer_loop c ctx endpoint uri expression triesRemaining'
                  MethodPut (Some (ErrStatusNotOK (Status response) (StatusCode response)))
              else if (StatusCode response =? StatusMethodNotAllowed)%Z then
                getFromRangeServer_loop c ctx endpoint uri expression triesRemaining'
                  MethodGet (Some (ErrStatusNotOK (Status response) (StatusCode response)))
              else
                getFromRangeServer_loop c ctx endpoint uri expression triesRemaining'
                  method (Some (ErrStatusNotOK (Status response) (StatusCode response)))
          end
      end
  end.

(** The server that the next call of [Next] returns in state [s], and the
    state after that call. *)
Definition server_of (s : State) : string := (roundRobinStrings_Next (rrs s)).1.

Definition after_Next (s : State) : State :=
  emit (EvNext (server_of s))
    (mkState (roundRobinStrings_Next (rrs s)).2 (world s) (trace s) (seen s)).

(** The requests that [getQuery] and [putQuery] hand to the transport. *)
Definition get_request (ctx : Ctx) (url : string) : Request :=
  mkRequest MethodGet url ∅ None ctx.

Definition put_request (ctx : Ctx) (endpoint expression : string) : Request :=
  mkRequest MethodPut endpoint
    (Header_Add ∅ ContentTypeKey "application/x-www-form-urlencoded")
    (Some ("query=" +:+ url_QueryEscape expression)) ctx.

(** The request that an attempt with [method] sends. *)
Definition request_of (ctx : Ctx) (endpoint uri expression method : string) : Request :=
  if String.eqb method MethodGet then get_request ctx uri
  else put_request ctx endpoint expression.

(** [s'] is reached from [s] by the calls [evs], which took the world
    through [ws]. *)
Record extends (s s' : State) (evs : list Event) (ws : list W) : Prop := mkExtends {
  ext_trace : trace s' = trace s ++ evs;
  ext_seen : seen s' = seen s ++ ws;
  ext_world : world s' = default (world s) (last ws);
}.

(** The calls that belong to one attempt: a transport call with method GET
    or PUT, or reading or closing a body. *)
Definition attempt_event (ev : Event) : Prop :=
  match ev with
  | EvDo request => Method request = MethodGet ∨ Method request = MethodPut
  | EvReadAll | EvClose => True
  | EvNext _ | EvSleep _ => False
  end.

(** The calls that one invocation of [getFromRangeServer] may make once it
    has selected its server: the request of [getQuery] for [uri], the
    request of [putQuery] for [endpoint], reading a body, closing it. *)
Definition resolver_event (ctx : Ctx) (endpoint uri expression : string) (ev : Event)
  : Prop :=
  ev = EvDo (get_request ctx uri) ∨ ev = EvDo (put_request ctx endpoint expression)
  ∨ ev = EvReadAll ∨ ev = EvClose.

(** Transport calls, server selections and pauses in a trace. *)
Definition is_Do (ev : Event) : bool :=
  match ev with EvDo _ => true | _ => false end.

Definition is_Next (ev : Event) : bool :=
  match ev with EvNext _ => true | _ => false end.

Definition is_Sleep (ev : Event) : bool :=
  match ev with EvSleep _ => true | _ => false end.

(** The server that the round-robin object hands out [k] calls of [Next]
    from now. *)
Definition selected (rr : roundRobinStrings) (k : nat) : string :=
  default "" (strings rr !! ((cursor rr + k) mod length (strings rr))).

Definition endpoint_of (server : string) : string := "http://" +:+ server +:+ "/range/list".

Definition uri_of (server expression : string) : string :=
  endpoint_of server +:+ "?" +:+ url_QueryEscape expression.

Definition getFromRangeServer (c : Client) (ctx : Ctx) (expression : string)
  : M (list Byte.byte * option error) :=
  server ← Next;
  let endpoint := endpoint_of server in
  let uri := uri_of server expression in
  let method :=
    if (defaultQueryLengthThreshold <? String.length uri)%nat then MethodPut else MethodGet in
  getFromRangeServer_loop c ctx endpoint uri expression 2 method None.

(** The method of the first attempt against [server]. *)
Definition first_method (server expression : string) : string :=
  if (defaultQueryLengthThreshold <? String.length (uri_of server expression))%nat
  then MethodPut else MethodGet.

(** The method with which the loop goes on after a response whose status
    is not 200. *)
Definition next_method (response : Response) (method : string) : string :=
  if (StatusCode response =? StatusRequestURITooLong)%Z then MethodPut
  else if (StatusCode response =? StatusMethodNotAllowed)%Z then MethodGet
  else method.

(** [attempt_of c ctx expression s n method herr s1]: the invocation of
    [getFromRangeServer] started in state [s] reaches the head of its loop
    in state [s1] with [triesRemaining = n], the given [method] and [herr].
    The first attempt follows the call of [Next]; a further one follows an
    attempt that was sent and answered with a status other than 200. *)
Inductive attempt_of (c : Client) (ctx : Ctx) (expression : string) (s : State)
  : nat → string → option error → State → Prop :=
  | attempt_first :
      attempt_of c ctx expression s 2 (first_method (server_of s) expression)
        None (after_Next s)
  | attempt_next n method herr s1 response s2 :
      attempt_of c ctx expression s (S n) method herr s1 →
      ctx (world s1) = None →
      send c ctx (endpoint_of (server_of s)) (uri_of (server_of s) expression)
        expression method s1 = Val (inl response) s2 →
      StatusCode response ≠ StatusOK →
      attempt_of c ctx expression s n (next_method response method)
        (Some (ErrStatusNotOK (Status response) (StatusCode response))) s2.

(** A backend that answers every request, in every world, with the same
    status. *)
Definition always_answers (d : Doer) (status : string) (code : Z) : Prop :=
  ∀ request w, ∃ response w',
    d request w = (inl response, w') ∧ Status response = status ∧ StatusCode response = code.

(** The request of the first attempt against [server]. *)
Definition first_request (ctx : Ctx) (server expression : string) : Request :=
  request_of ctx (endpoint_of server) (uri_of server expression) expression
    (first_method server expression).

(** ** The retry loop and the top-level query *)

(** Modelled from the spec: the response type and newResponse are not in
    client.go; a response holds the raw byte buffer of a successful
    response body. *)
Record response : Type := newResponse {
  Bytes : list Byte.byte;
}.

Record responseResult : Type := mkResponseResult {
  r : option response;
  e : option error;
}.

(** The condition of the [if] in the retry loop, with Go's short-circuit
    evaluation: the callback is only applied to a non-nil error. *)
Definition query_stops (c : Client) (attempts : Z) (err : option error) : bool :=
  (attempts =? retryCount c)%Z
  || match err with
     | None => true
     | Some err => negb (retryCallback c err)
     end.

(** The goroutine spawned by [query]: the [for] loop, entered with the
    current value of [attempts].  It ends by sending one [responseResult] on
    the channel [ch]; the result is that value, or [None] when [fuel]
    iterations were not enough to get there. *)
Fixpoint query_goroutine (fuel : nat) (c : Client) (ctx : Ctx) (expression : string)
    (attempts : Z) : M (option responseResult) :=
  match fuel with
  | O => mret None
  | S fuel' =>
      '(buf, err) ← getFromRangeServer c ctx expression;
      if query_stops c attempts err then
        match err with
        | None => mret (Some (mkResponseResult (Some (newResponse buf)) None))
        | Some _ => mret (Some (mkResponseResult None err))
        end
      else
        _ ← (if (0 <? retryPause c)%Z then Sleep (retryPause c) else mret tt);
        query_goroutine fuel' c ctx expression (int_incr attempts)
  end.

(** The first world of a list in which the context is concluded. *)
Fixpoint first_done (ctx : Ctx) (ws : list W) : option error :=
  match ws with
  | [] => None
  | w :: ws' =>
      match ctx w with
      | Some err => Some err
      | None => first_done ctx ws'
      end
  end.

Inductive QueryResult : Type :=
  | Returned (r : option response) (e : option error)
  | Crashed (v : panic_value)
  | Pending.

(** [query]: the goroutine runs from the current state, and the caller
    blocks in [select] on [ctx.Done()] and on the channel [ch].  The caller
    sees the worlds the goroutine passes through, in order: the world in
    which [query] is called and those added to [seen]; the goroutine sends
    its result in the last of them.  A case of the [select] that becomes
    ready before the other one is taken.  When both are ready in the same
    world Go chooses one of them at random: [pick] is that choice ([true]
    for the [ctx.Done()] case).  [Pending] means that neither case became
    ready within [fuel] iterations of the goroutine. *)
Definition query (fuel : nat) (pick : bool) (c : Client) (ctx : Ctx) (expression : string)
    (s : State) : QueryResult * State :=
  match query_goroutine fuel c ctx expression 0 s with
  | Panic v s' => (Crashed v, s')
  | Val None s' =>
      match first_done ctx (world s :: drop (length (seen s)) (seen s')) with
      | Some err => (Returned None (Some err), s')
      | None => (Pending, s')
      end
  | Val (Some rr) s' =>
      match first_done ctx (removelast (world s :: drop (length (seen s)) (seen s'))) with
      | Some err => (Returned None (Some err), s')
      | None =>
          match ctx (world s') with
          | Some err =>
              if pick then (Returned None (Some err), s') else (Returned (r rr) (e rr), s')
          | None => (Returned (r rr) (e rr), s')
          end
      end
  end.

(** ** The exported byte queries *)

(** What a caller of [QueryBytes] or [QueryBytesCtx] gets: the two return
    values, or one of the ways not to return.  [BytesOfNil] stands for the
    call [r.Bytes()] on a nil response, which the code makes when [query]
    returns neither a response nor an error. *)
Inductive BytesResult : Type :=
  | BytesReturned (buf : list Byte.byte) (err : option error)
  | BytesOfNil
  | BytesCrashed (v : panic_value)
  | BytesPending.

Definition QueryBytes (fuel : nat) (pick : bool) (c : Client) (expression : string)
    (s : State) : BytesResult * State :=
  match query fuel pick c Background expression s with
  | (Returned r err, s') =>
      match err with
      | None =>
          match r with
          | Some resp => (BytesReturned (Bytes resp) None, s')
          | None => (BytesOfNil, s')
          end
      | Some _ => (BytesReturned [] err, s')
      end
  | (Crashed v, s') => (BytesCrashed v, s')
  | (Pending, s') => (BytesPending, s')
  end.

Definition QueryBytesCtx (fuel : nat) (pick : bool) (c : Client) (ctx : Ctx)
    (expression : string) (s : State) : BytesResult * State :=
  match query fuel pick c ctx expression s with
  | (Returned r err, s') =>
      match err with
      | None =>
          match r with
          | Some resp => (BytesReturned (Bytes resp) None, s')
          | None => (BytesOfNil, s')
          end
      | Some _ => (BytesReturned [] err, s')
      end
  | (Crashed v, s') => (BytesCrashed v, s')
  | (Pending, s') => (BytesPending, s')
  end.

End Model.

Global Arguments Runtime W : clear implicits.
Global Arguments Ctx W : clear implicits.
Global Arguments ReadCloser W : clear implicits.
Global Arguments Request W : clear implicits.
Global Arguments Response W : clear implicits.
Global Arguments Doer W : clear implicits.
Global Arguments Event W : clear implicits.
Global Arguments State W : clear implicits.
Global Arguments Res W : clear implicits.
Global Arguments M W : clear implicits.
Global Arguments Config W : clear implicits.
Global Arguments Client W : clear implicits.

(** ** A concrete world, for running the client *)

(** The world is a clock that counts the calls made to the outside
    (transport, body, sleep); backends and contexts are scripted on it. *)
Module Demo.

Definition is_unreserved (c : ascii) : bool :=
  let n := nat_of_ascii c in
  ((48 <=? n)%nat && (n <=? 57)%nat) || ((65 <=? n)%nat && (n <=? 90)%nat)
  || ((97 <=? n)%nat && (n <=? 122)%nat)
  || Ascii.eqb c "-" || Ascii.eqb c "_" || Ascii.eqb c "." || Ascii.eqb c "~".

Definition upperhex (n : nat) : ascii :=
  default "0"%char (String.list_ascii_of_string "0123456789ABCDEF" !! n).

(** [net/url.QueryEscape]: unreserved bytes are kept, a space becomes a
    plus sign, every other byte becomes a percent sign and two upper-case
    hexadecimal digits. *)
Fixpoint QueryEscape (s : string) : string :=
  match s with
  | EmptyString => EmptyString
  | String c s' =>
      if Ascii.eqb c " " then String "+" (QueryEscape s')
      else if is_unreserved c then String c (QueryEscape s')
      else
        let n := nat_of_ascii c in
        String "%" (String (upperhex (n / 16)) (String (upperhex (n mod 16)) (QueryEscape s')))
  end.

(** URLs with a space or an ASCII control character are rejected. *)
Fixpoint ParseError (url : string) : option error :=
  match url with
  | EmptyString => None
  | String c url' =>
      if ((nat_of_ascii c <=? 32)%nat || (nat_of_ascii c =? 127)%nat)
      then Some (ErrExternal "net/url: invalid character in URL")
      else ParseError url'
  end.

Definition connection_refused : Doer nat :=
  λ _ w, (inr (ErrExternal "connection refused"), S w).

(** A retry policy as the spec describes the default one: every error but
    a RangeException is retried. *)
Definition retry_unless_RangeException (err : error) : bool :=
  match err with
  | ErrRangeException _ => false
  | _ => true
  end.

#[global] Instance runtime : Runtime nat := {|
  url_QueryEscape := QueryEscape;
  url_ParseError := ParseError;
  time_Sleep := λ _ w, S w;
  http_DefaultClient := connection_refused;
  makeRetryCallback := λ _, retry_unless_RangeException;
|}.

(** A body holding [content], whose read and close end with the given
    errors. *)
Definition body (content : list Byte.byte) (rerr cerr : option error) : ReadCloser nat :=
  mkReadCloser (λ w, ((content, rerr), S w)) (λ w, (cerr, S w)).

Definition abc : list Byte.byte := [Byte.x61; Byte.x20; Byte.x62; Byte.x20; Byte.x63].

Definition reply (status : string) (code : Z) (header : gmap string (list string))
    (b : ReadCloser nat) : Response nat :=
  mkResponse status code header b.

(** A backend that answers every request with the same status. *)
Definition always (status : string) (code : Z) : Doer nat :=
  λ _ w, (inl (reply status code ∅ (body abc None None)), S w).

Definition always500 : Doer nat := always "500 Internal Server Error" 500.
Definition always414 : Doer nat := always "414 Request-URI Too Long" 414.

(** A backend that refuses GET with 414 and answers PUT with 200. *)
Definition put_only : Doer nat :=
  λ request w,
    if String.eqb (Method request) MethodGet
    then (inl (reply "414 Request-URI Too Long" 414 ∅ (body [] None None)), S w)
    else (inl (reply "200 OK" 200 ∅ (body abc None None)), S w).

(** A backend that refuses PUT with 405 and answers GET with 200. *)
Definition get_only : Doer nat :=
  λ request w,
    if String.eqb (Method request) MethodPut
    then (inl (reply "405 Method Not Allowed" 405 ∅ (body [] None None)), S w)
    else (inl (reply "200 OK" 200 ∅ (body abc None None)), S w).

(** A backend that answers 200 with a RangeException header. *)
Definition bad_syntax : Doer nat :=
  λ _ w, (inl (reply "200 OK" 200 {[ RangeExceptionKey := ["bad syntax"] ]}
                 (body abc None None)), S w).

(** A backend that answers 200 with a body whose read and close both
    fail. *)
Definition broken_body : Doer nat :=
  λ _ w, (inl (reply "200 OK" 200 ∅
                 (body abc (Some (ErrExternal "unexpected EOF"))
                           (Some (ErrExternal "close failed")))), S w).

(** A context that is concluded from clock value [t] on. *)
Definition canceled_at (t : nat) : Ctx nat :=
  λ w, if (t <=? w)%nat then Some (ErrExternal "context canceled") else None.

Definition client (d : Doer nat) (servers : list string) (retries : Z) : Client nat :=
  mkClient d (mkRoundRobin servers 0) retry_unless_RangeException retries 0.

Definition start (c : Client nat) : State nat :=
  mkState (servers c) 0 [] [].

Definition two_servers : list string := ["a:8081"; "b:8081"].

(** A query expression of 5000 characters. *)
Definition long_expression : string :=
  String.string_of_list_ascii (replicate 5000 "x"%char).

(** The clients and replies of the scenarios below, and the first attempt
    of an invocation started in the initial state of a client. *)
Definition c500 : Client nat := client always500 two_servers 2.
Definition c414 : Client nat := client always414 two_servers 0.
Definition c200 : Client nat := client (always "200 OK" 200) two_servers 0.
Definition cput : Client nat := client put_only two_servers 0.
Definition cbad : Client nat := client bad_syntax two_servers 1.
Definition cbroken : Client nat := client broken_body two_servers 0.
Definition crefused : Client nat := client connection_refused two_servers 0.
Definition c405 : Client nat := client (always "405 Method Not Allowed" 405) two_servers 0.
Definition cget : Client nat := client get_only two_servers 0.

(** A client that pauses for 10 between two invocations. *)
Definition cpause : Client nat :=
  mkClient always500 (mkRoundRobin two_servers 0) retry_unless_RangeException 2 10.

Definition err500 : error := ErrStatusNotOK "500 Internal Server Error" 500.
Definition err414 : error := ErrStatusNotOK "414 Request-URI Too Long" 414.
Definition err405 : error := ErrStatusNotOK "405 Method Not Allowed" 405.
Definition canceled : error := ErrExternal "context canceled".

Definition too_long : Response nat :=
  reply "414 Request-URI Too Long" 414 ∅ (body abc None None).

Definition first_send (c : Client nat) (ctx : Ctx nat) (expression method : string)
  : Res nat (Response nat + error) :=
  send c ctx (endpoint_of (server_of (start c)))
    (uri_of (server_of (start c)) expression) expression method
    (after_Next (start c)).

End Demo.


(** * Properties *)

Section Theory.

Context {W : Type} `{RT : Runtime W}.

Implicit Types (c : Client W) (ctx : Ctx W) (s : State W) (w : W).
Implicit Types (request : Request W) (response : Response W) (rc : ReadCloser W).
Implicit Types (err : error) (herr : option error) (n fuel : nat) (attempts : Z).
Implicit Types (endpoint uri expression method server : string).

(** ** Running the primitives *)

Lemma bind_Val {A B} (m : M W A) (f : A → M W B) s a s1 :
  m s = Val a s1 → (m ≫= f) s = f a s1.
Proof. intros H. unfold mbind, M_bind. by rewrite H. Qed.

Lemma Next_eq s : Next s = Val (server_of s) (after_Next s).
Proof. reflexivity. Qed.

Lemma Do_eq (d : Doer W) request s x w :
  d request (world s) = (x, w) →
  Do d request s = Val x (advance w (emit (EvDo request) s)).
Proof. intros H. unfold Do. by rewrite H. Qed.

Lemma getQuery_eq c ctx url s :
  url_ParseError url = None →
  getQuery c ctx url s = Do (httpClient c) (get_request ctx url) s.
Proof. intros H. unfold getQuery, NewRequest. by rewrite H. Qed.

Lemma putQuery_eq c ctx endpoint expression s :
  url_ParseError endpoint = None →
  putQuery c ctx endpoint expression s
  = Do (httpClient c) (put_request ctx endpoint expression) s.
Proof. intros H. unfold putQuery, NewRequest. by rewrite H. Qed.

Lemma send_Get c ctx endpoint uri expression s :
  send c ctx endpoint uri expression MethodGet s = getQuery c ctx uri s.
Proof. reflexivity. Qed.

Lemma send_Put c ctx endpoint uri expression s :
  send c ctx endpoint uri expression MethodPut s = putQuery c ctx endpoint expression s.
Proof. reflexivity. Qed.

(** One attempt either fails before reaching the transport, leaving the
    state as it was, or makes exactly one transport call. *)
Lemma send_inv c ctx endpoint uri expression method s :
  method = MethodGet ∨ method = MethodPut →
  (∃ err, send c ctx endpoint uri expression method s = Val (inr err) s)
  ∨ (∃ x w,
        httpClient c (request_of ctx endpoint uri expression method) (world s) = (x, w)
        ∧ send c ctx endpoint uri expression method s
          = Val x (advance w (emit (EvDo (request_of ctx endpoint uri expression method)) s))).
Proof.
  intros [-> | ->].
  - rewrite send_Get. unfold getQuery, NewRequest.
    destruct (url_ParseError uri) as [err|] eqn:Hu; [left; by exists err|].
    right. destruct (httpClient c (get_request ctx uri) (world s)) as [x w] eqn:Hd.
    exists x, w. split; [done|]. by apply Do_eq.
  - rewrite send_Put. unfold putQuery, NewRequest.
    destruct (url_ParseError endpoint) as [err|] eqn:Hu; [left; by exists err|].
    right.
    destruct (httpClient c (put_request ctx endpoint expression) (world s)) as [x w] eqn:Hd.
    exists x, w. split; [done|]. by apply Do_eq.
Qed.

Lemma readAndClose_eq rc s buf rerr w1 cerr w2 :
  ReadAll rc (world s) = ((buf, rerr), w1) →
  Close rc w1 = (cerr, w2) →
  readAndClose rc s
  = Val match rerr with
        | Some err => ([], Some err)
        | None => match cerr with Some err => ([], Some err) | None => (buf, None) end
        end
        (advance w2 (emit EvClose (advance w1 (emit EvReadAll s)))).
Proof.
  intros Hr Hc. unfold readAndClose, mbind, M_bind, ioutil_ReadAll, rc_Close.
  rewrite Hr. simpl. rewrite Hc. by destruct rerr, cerr.
Qed.

(** One iteration of the loop of [getFromRangeServer]. *)
Lemma getFromRangeServer_loop_S c ctx endpoint uri expression n method herr s :
  getFromRangeServer_loop c ctx endpoint uri expression (S n) method herr s =
  match ctx (world s) with
  | Some err => Val ([], Some err) s
  | None =>
      match send c ctx endpoint uri expression method s with
      | Panic v s1 => Panic v s1
      | Val (inr err) s1 => Val ([], Some err) s1
      | Val (inl response) s1 =>
          if (StatusCode response =? StatusOK)%Z then
            if negb (String.eqb (Header_Get (respHeader response) RangeExceptionKey) "")
            then Val ([], Some (ErrRangeException
                                  (Header_Get (respHeader response) RangeExceptionKey))) s1
            else readAndClose (Body response) s1
          else
            getFromRangeServer_loop c ctx endpoint uri expression n
              (next_method response method)
              (Some (ErrStatusNotOK (Status response) (StatusCode response))) s1
      end
  end.
Proof.
  cbn [getFromRangeServer_loop]. unfold mbind, M_bind, ctx_Done, next_method.
  destruct (ctx (world s)); [done|].
  destruct (send c ctx endpoint uri expression method s) as [[response|err] s1|]; [|done..].
  destruct (StatusCode response =? StatusOK)%Z; [by destruct (negb _)|].
  by repeat case_match.
Qed.

Lemma next_method_cases response method :
  method = MethodGet ∨ method = MethodPut →
  next_method response method = MethodGet ∨ next_method response method = MethodPut.
Proof. unfold next_method. repeat case_match; auto. Qed.

(** ** How the state grows *)

Lemma extends_refl s : extends s s [] [].
Proof. split; simpl; by rewrite ?app_nil_r. Qed.

Lemma extends_trans s s1 s2 evs1 ws1 evs2 ws2 :
  extends s s1 evs1 ws1 → extends s1 s2 evs2 ws2 →
  extends s s2 (evs1 ++ evs2) (ws1 ++ ws2).
Proof.
  intros [Ht1 Hs1 Hw1] [Ht2 Hs2 Hw2]. split.
  - by rewrite Ht2, Ht1, app_assoc.
  - by rewrite Hs2, Hs1, app_assoc.
  - rewrite Hw2, Hw1, last_app. by destruct (last ws2).
Qed.

Lemma extends_step s ev w : extends s (advance w (emit ev s)) [ev] [w].
Proof. by split. Qed.

Lemma extends_after_Next s : extends s (after_Next s) [EvNext (server_of s)] [].
Proof. split; simpl; by rewrite ?app_nil_r. Qed.

Lemma request_of_method ctx endpoint uri expression method :
  method = MethodGet ∨ method = MethodPut →
  Method (request_of ctx endpoint uri expression method) = method.
Proof. by intros [-> | ->]. Qed.

Lemma readAndClose_total rc s :
  ∃ x s', readAndClose rc s = Val x s' ∧ rrs s' = rrs s
          ∧ extends s s' [EvReadAll; EvClose] [(ReadAll rc (world s)).2;
                                                (Close rc (ReadAll rc (world s)).2).2].
Proof.
  destruct (ReadAll rc (world s)) as [[buf rerr] w1] eqn:Hr. simpl.
  destruct (Close rc w1) as [cerr w2] eqn:Hc. simpl.
  eexists _, _. split; [by apply (readAndClose_eq _ _ _ _ _ _ _ Hr Hc)|].
  split; [done|]. split; simpl; by rewrite <- ?app_assoc.
Qed.

(** The loop of [getFromRangeServer] always returns: it never panics, never
    selects a server, makes at most [n] transport calls, each of them a GET
    or a PUT. *)
Lemma getFromRangeServer_loop_total c ctx endpoint uri expression n :
  ∀ method herr s,
    method = MethodGet ∨ method = MethodPut →
    ∃ x s' evs ws,
      getFromRangeServer_loop c ctx endpoint uri expression n method herr s = Val x s'
      ∧ rrs s' = rrs s
      ∧ extends s s' evs ws
      ∧ Forall attempt_event evs
      ∧ length (List.filter is_Do evs) ≤ n.
Proof.
  induction n as [|n IH]; intros method herr s Hm.
  { exists ([], herr), s, [], []. repeat split; simpl; rewrite ?app_nil_r; auto. }
  rewrite getFromRangeServer_loop_S.
  destruct (ctx (world s)) as [err|].
  { exists ([], Some err), s, [], []. repeat split; simpl; rewrite ?app_nil_r; auto with lia. }
  destruct (send_inv c ctx endpoint uri expression method s Hm) as [[err ->] | (x & w & Hd & ->)].
  { exists ([], Some err), s, [], []. repeat split; simpl; rewrite ?app_nil_r; auto with lia. }
  set (request := request_of ctx endpoint uri expression method).
  assert (Hreq : attempt_event (EvDo request))
    by (simpl; unfold request; rewrite request_of_method; done).
  set (s1 := advance w (emit (EvDo request) s)).
  destruct x as [response|err]; cycle 1.
  { exists ([], Some err), s1, [EvDo request], [w].
    repeat split; simpl; auto with lia. }
  destruct (StatusCode response =? StatusOK)%Z.
  - destruct (negb _).
    + eexists _, s1, [EvDo request], [w]. repeat split; simpl; auto with lia.
    + destruct (readAndClose_total (Body response) s1) as (x & s' & -> & Hrr & Hext).
      eexists x, s', _, _. split; [done|]. split; [done|].
      split; [exact (extends_trans _ _ _ _ _ _ _ (extends_step s _ w) Hext)|].
      split; [|simpl; lia].
      simpl. repeat (apply Forall_cons_2; [first [exact Hreq | exact I]|]). apply Forall_nil_2.
  - edestruct (IH (next_method response method)
                  (Some (ErrStatusNotOK (Status response) (StatusCode response))) s1)
      as (x & s' & evs & ws & -> & Hrr & Hext & Hev & Hlen).
    { by apply next_method_cases. }
    exists x, s', ([EvDo request] ++ evs), ([w] ++ ws). split; [done|]. split; [done|].
    split; [exact (extends_trans _ _ _ _ _ _ _ (extends_step s _ w) Hext)|].
    split; [by apply Forall_cons_2|simpl; lia].
Qed.

(** ** One invocation of the resolver *)

Lemma getFromRangeServer_eq c ctx expression s :
  getFromRangeServer c ctx expression s
  = getFromRangeServer_loop c ctx (endpoint_of (server_of s))
      (uri_of (server_of s) expression) expression 2
      (first_method (server_of s) expression) None (after_Next s).
Proof. reflexivity. Qed.

Lemma first_method_cases server expression :
  first_method server expression = MethodGet ∨ first_method server expression = MethodPut.
Proof. unfold first_method. case_match; auto. Qed.

Lemma getFromRangeServer_total c ctx expression s :
  ∃ x s' evs ws,
    getFromRangeServer c ctx expression s = Val x s'
    ∧ rrs s' = (roundRobinStrings_Next (rrs s)).2
    ∧ extends s s' (EvNext (server_of s) :: evs) ws
    ∧ Forall attempt_event evs
    ∧ length (List.filter is_Do evs) ≤ 2.
Proof.
  rewrite getFromRangeServer_eq.
  edestruct (getFromRangeServer_loop_total c ctx (endpoint_of (server_of s))
               (uri_of (server_of s) expression) expression 2)
    as (x & s' & evs & ws & -> & Hrr & Hext & Hev & Hlen); [apply first_method_cases|].
  exists x, s', evs, ws. split; [done|]. split; [done|]. split; [|done].
  exact (extends_trans _ _ _ _ _ _ _ (extends_after_Next s) Hext).
Qed.

(** A response comes from exactly one transport call, with the request of
    the current method. *)
Lemma send_Val_inl c ctx endpoint uri expression method s response s1 :
  send c ctx endpoint uri expression method s = Val (inl response) s1 →
  (method = MethodGet ∨ method = MethodPut)
  ∧ ∃ w, httpClient c (request_of ctx endpoint uri expression method) (world s)
         = (inl response, w)
         ∧ s1 = advance w (emit (EvDo (request_of ctx endpoint uri expression method)) s).
Proof.
  intros H.
  assert (Hm : method = MethodGet ∨ method = MethodPut).
  { unfold send in H. destruct (String.eqb_spec method MethodGet); [by left|].
    destruct (String.eqb_spec method MethodPut); [by right|done]. }
  split; [done|].
  destruct (send_inv c ctx endpoint uri expression method s Hm)
    as [[err He] | (x & w & Hd & He)]; rewrite He in H; [done|].
  injection H as -> <-. by exists w.
Qed.

(** Every attempt of an invocation is where the invocation goes on. *)
Lemma attempt_of_run c ctx expression s n method herr s1 :
  attempt_of c ctx expression s n method herr s1 →
  getFromRangeServer c ctx expression s
  = getFromRangeServer_loop c ctx (endpoint_of (server_of s))
      (uri_of (server_of s) expression) expression n method herr s1.
Proof.
  induction 1 as [|n method herr s1 response s2 _ IH Hctx Hsend Hcode].
  - apply getFromRangeServer_eq.
  - rewrite IH, getFromRangeServer_loop_S, Hctx, Hsend.
    by apply Z.eqb_neq in Hcode as ->.
Qed.

(** No attempt selects a server: the round-robin object is as [Next] left
    it, and the method is GET or PUT. *)
Lemma attempt_of_inv c ctx expression s n method herr s1 :
  attempt_of c ctx expression s n method herr s1 →
  (method = MethodGet ∨ method = MethodPut)
  ∧ n ≤ 2
  ∧ rrs s1 = (roundRobinStrings_Next (rrs s)).2
  ∧ ∃ evs ws, extends s s1 (EvNext (server_of s) :: evs) ws
              ∧ Forall (λ ev, is_Do ev = true) evs
              ∧ n + length evs = 2.
Proof.
  induction 1 as [|n method herr s1 response s2 _ IH Hctx Hsend Hcode].
  - split; [apply first_method_cases|]. split; [done|]. split; [done|].
    exists [], []. split; [apply extends_after_Next|]. by split.
  - destruct IH as (Hm & Hn & Hrr & evs & ws & Hext & Hev & Hlen).
    apply send_Val_inl in Hsend as (_ & w & _ & ->).
    split; [by apply next_method_cases|]. split; [lia|]. split; [done|].
    eexists (evs ++ [_]), (ws ++ [w]).
    split; [exact (extends_trans _ _ _ _ _ _ _ Hext (extends_step s1 _ w))|].
    split; [apply Forall_app; split; [done|by apply Forall_cons_2]|].
    rewrite length_app. simpl. lia.
Qed.

(** ** The goroutine of [query] *)

Lemma query_goroutine_S fuel c ctx expression attempts s buf oerr s1 :
  getFromRangeServer c ctx expression s = Val (buf, oerr) s1 →
  query_goroutine (S fuel) c ctx expression attempts s
  = if query_stops c attempts oerr then
      Val (Some match oerr with
                | None => mkResponseResult (Some (newResponse buf)) None
                | Some _ => mkResponseResult None oerr
                end) s1
    else
      query_goroutine fuel c ctx expression (int_incr attempts)
        (if (0 <? retryPause c)%Z
         then advance (time_Sleep (retryPause c) (world s1)) (emit (EvSleep (retryPause c)) s1)
         else s1).
Proof.
  intros H. cbn [query_goroutine]. unfold mbind, M_bind at 1. rewrite H.
  destruct (query_stops c attempts oerr); [by destruct oerr|].
  unfold mbind, M_bind. by destruct (0 <? retryPause c)%Z.
Qed.

Lemma query_stops_iff c attempts oerr :
  query_stops c attempts oerr = true
  ↔ attempts = retryCount c ∨ oerr = None
    ∨ ∃ err, oerr = Some err ∧ retryCallback c err = false.
Proof.
  unfold query_stops. rewrite orb_true_iff, Z.eqb_eq. split.
  - intros [?|H]; [by left|]. destruct oerr as [err|]; [|by right; left].
    right; right. exists err. by apply negb_true_iff in H.
  - intros [?|[->|(err & -> & H)]]; [by left|by right|]. right. by rewrite H.
Qed.

(** The goroutine never panics, and only adds to the trace and to the
    worlds seen. *)
Lemma query_goroutine_total c ctx expression fuel :
  ∀ attempts s,
    ∃ res s' evs ws,
      query_goroutine fuel c ctx expression attempts s = Val res s'
      ∧ extends s s' evs ws.
Proof.
  induction fuel as [|fuel IH]; intros attempts s.
  { exists None, s, [], []. split; [done|apply extends_refl]. }
  destruct (getFromRangeServer_total c ctx expression s)
    as ([buf oerr] & s1 & evs1 & ws1 & Hrun & _ & Hext1 & _).
  rewrite (query_goroutine_S _ _ _ _ _ _ _ _ _ Hrun).
  destruct (query_stops c attempts oerr); [by eexists _, s1, _, _|].
  destruct (0 <? retryPause c)%Z.
  - edestruct IH as (res & s' & evs & ws & -> & Hext).
    eexists res, s', _, _. split; [done|].
    exact (extends_trans _ _ _ _ _ _ _
             (extends_trans _ _ _ _ _ _ _ Hext1 (extends_step s1 _ _)) Hext).
  - edestruct IH as (res & s' & evs & ws & -> & Hext).
    eexists res, s', _, _. split; [done|].
    exact (extends_trans _ _ _ _ _ _ _ Hext1 Hext).
Qed.

Lemma first_done_app ctx (ws1 ws2 : list W) :
  Forall (λ w, ctx w = None) ws1 →
  first_done ctx (ws1 ++ ws2) = first_done ctx ws2.
Proof. induction 1 as [|w ws1 Hw _ IH]; simpl; [done|by rewrite Hw]. Qed.

Lemma removelast_cons_cons {A} (x y : A) l :
  removelast (x :: y :: l) = x :: removelast (y :: l).
Proof. reflexivity. Qed.

(** * The claims *)

(** C9: in every execution of [getFromRangeServer] the method is GET or PUT
    whenever an attempt is dispatched, so the panic for an unsupported
    method is never reached: the resolver always returns, and every
    transport call it made carries the method GET or PUT. *)
Theorem C9_getFromRangeServer_never_panics c ctx expression s :
  (∀ v s', getFromRangeServer c ctx expression s ≠ Panic v s')
  ∧ ∃ x s' evs,
      getFromRangeServer c ctx expression s = Val x s'
      ∧ trace s' = trace s ++ EvNext (server_of s) :: evs
      ∧ Forall attempt_event evs.
Proof.
  destruct (getFromRangeServer_total c ctx expression s)
    as (x & s' & evs & ws & Hrun & _ & [Htr _ _] & Hev & _).
  split; [intros v s2; by rewrite Hrun|]. by exists x, s', evs.
Qed.

(** C8: [NewClient] fails for every configuration with an empty server
    list, a negative retry count or a negative retry pause, and for every
    other configuration it returns a client and no error. *)
Theorem C8_NewClient_fails_iff_invalid (config : Config W) :
  (Servers config = [] ∨ (RetryCount config < 0)%Z ∨ (RetryPause config < 0)%Z →
   ∃ err, NewClient config = (None, Some err))
  ∧ (¬ (Servers config = [] ∨ (RetryCount config < 0)%Z ∨ (RetryPause config < 0)%Z) →
     ∃ c, NewClient config = (Some c, None)
          ∧ retryCount c = RetryCount config
          ∧ retryPause c = RetryPause config
          ∧ servers c = mkRoundRobin (Servers config) 0).
Proof.
  unfold NewClient. split.
  - intros H. destruct (Z.ltb_spec (RetryCount config) 0); [by eexists|].
    destruct (Z.ltb_spec (RetryPause config) 0); [by eexists|].
    destruct H as [H|[H|H]]; [|lia..]. rewrite H. by eexists.
  - intros H. destruct (Z.ltb_spec (RetryCount config) 0); [tauto|].
    destruct (Z.ltb_spec (RetryPause config) 0); [tauto|].
    destruct (Servers config) as [|server l] eqn:Hs; [tauto|]. simpl. by eexists.
Qed.

(** C3: after a call of the resolver, the retry loop stops exactly when the
    attempt counter equals the retry count, or there is no error, or the
    retry callback applied to the error returns false; it then hands over
    the response, or that error when the call failed.  Otherwise it
    increments the counter, sleeps when the retry pause is positive, and
    goes round the loop again, which calls the resolver again. *)
Theorem C3_retry_loop_stops_or_retries fuel c ctx expression attempts s buf oerr s1 :
  getFromRangeServer c ctx expression s = Val (buf, oerr) s1 →
  let stops :=
    attempts = retryCount c ∨ oerr = None
    ∨ ∃ err, oerr = Some err ∧ retryCallback c err = false in
  (stops →
   query_goroutine (S fuel) c ctx expression attempts s
   = Val (Some match oerr with
               | None => mkResponseResult (Some (newResponse buf)) None
               | Some err => mkResponseResult None (Some err)
               end) s1)
  ∧ (¬ stops →
     query_goroutine (S fuel) c ctx expression attempts s
     = query_goroutine fuel c ctx expression (int_incr attempts)
         (if (0 <? retryPause c)%Z
          then advance (time_Sleep (retryPause c) (world s1)) (emit (EvSleep (retryPause c)) s1)
          else s1))
  ∧ ((- 2 ^ 63 ≤ attempts < 2 ^ 63 - 1)%Z → int_incr attempts = (attempts + 1)%Z).
Proof.
  intros Hrun stops. rewrite (query_goroutine_S _ _ _ _ _ _ _ _ _ Hrun).
  pose proof (query_stops_iff c attempts oerr) as Hiff. fold stops in Hiff.
  split; [|split].
  - intros H. apply Hiff in H as ->. by destruct oerr.
  - intros H. destruct (query_stops c attempts oerr); [|done]. by destruct H, Hiff; auto.
  - intros H. unfold int_incr. rewrite Z.mod_small; lia.
Qed.

(** C6: when an attempt is answered with status 200 and a non-empty
    RangeException header, the resolver fails with a RangeException error
    that carries exactly the message of the header, whatever the body is;
    the transport call is the last thing this attempt does, so the body is
    not read. *)
Theorem C6_RangeException_header c ctx expression s n method herr s1 response s2 :
  attempt_of c ctx expression s (S n) method herr s1 →
  ctx (world s1) = None →
  send c ctx (endpoint_of (server_of s)) (uri_of (server_of s) expression)
    expression method s1 = Val (inl response) s2 →
  StatusCode response = StatusOK →
  Header_Get (respHeader response) RangeExceptionKey ≠ "" →
  getFromRangeServer c ctx expression s
  = Val ([], Some (ErrRangeException (Header_Get (respHeader response) RangeExceptionKey))) s2
  ∧ trace s2
    = trace s1 ++ [EvDo (request_of ctx (endpoint_of (server_of s))
                           (uri_of (server_of s) expression) expression method)].
Proof.
  intros Hat Hctx Hsend Hcode Hmsg.
  rewrite (attempt_of_run _ _ _ _ _ _ _ _ Hat), getFromRangeServer_loop_S, Hctx, Hsend, Hcode.
  simpl. destruct (String.eqb_spec (Header_Get (respHeader response) RangeExceptionKey) "");
    [done|]. split; [done|].
  by apply send_Val_inl in Hsend as (_ & w & _ & ->).
Qed.

(** C7: when an attempt is answered with status 200 and no RangeException
    header, the body is read to its end and then closed, whatever the read
    returned; the resolver returns the bytes read when both succeed, the
    read error when the read fails (also when the close fails too), and
    the close error when only the close fails. *)
Theorem C7_body_read_then_closed c ctx expression s n method herr s1 response s2
    buf rerr w1 cerr w2 :
  attempt_of c ctx expression s (S n) method herr s1 →
  ctx (world s1) = None →
  send c ctx (endpoint_of (server_of s)) (uri_of (server_of s) expression)
    expression method s1 = Val (inl response) s2 →
  StatusCode response = StatusOK →
  Header_Get (respHeader response) RangeExceptionKey = "" →
  ReadAll (Body response) (world s2) = ((buf, rerr), w1) →
  Close (Body response) w1 = (cerr, w2) →
  ∃ x s',
    getFromRangeServer c ctx expression s = Val x s'
    ∧ trace s' = trace s2 ++ [EvReadAll; EvClose]
    ∧ (rerr = None → cerr = None → x = (buf, None))
    ∧ (∀ err, rerr = Some err → x = ([], Some err))
    ∧ (∀ err, rerr = None → cerr = Some err → x = ([], Some err)).
Proof.
  intros Hat Hctx Hsend Hcode Hmsg Hr Hc.
  rewrite (attempt_of_run _ _ _ _ _ _ _ _ Hat), getFromRangeServer_loop_S, Hctx, Hsend, Hcode,
    Hmsg.
  simpl. rewrite (readAndClose_eq _ _ _ _ _ _ _ Hr Hc).
  eexists _, _. split; [done|]. split; [simpl; by rewrite <- app_assoc|].
  split; [by intros -> ->|]. split; [by intros err ->|by intros err -> ->].
Qed.


Lemma string_length_app (s1 s2 : string) :
  String.length (s1 +:+ s2) = String.length s1 + String.length s2.
Proof. induction s1 as [|a s1 IH]; simpl; [done|by rewrite IH]. Qed.

Lemma getFromRangeServer_loop_first c ctx endpoint uri expression n method herr s x s' :
  method = MethodGet ∨ method = MethodPut →
  getFromRangeServer_loop c ctx endpoint uri expression n method herr s = Val x s' →
  trace s' = trace s
  ∨ ∃ evs, trace s' = trace s ++ EvDo (request_of ctx endpoint uri expression method) :: evs.
Proof.
  intros Hm. destruct n as [|n]; [left; by injection H as _ <-|].
  rewrite getFromRangeServer_loop_S.
  destruct (ctx (world s)) as [err|]; [left; by injection H as _ <-|].
  destruct (send_inv c ctx endpoint uri expression method s Hm) as [[err ->] | (y & w & Hd & ->)];
    [left; by injection H as _ <-|].
  set (s1 := advance w (emit (EvDo (request_of ctx endpoint uri expression method)) s)).
  assert (Hext : ∀ evs ws, extends s1 s' evs ws →
            ∃ evs, trace s' = trace s ++ EvDo (request_of ctx endpoint uri expression method) :: evs).
  { intros evs ws [-> _ _]. exists evs. simpl. by rewrite <- app_assoc. }
  intros H. right. destruct y as [response|err]; cycle 1.
  { injection H as _ <-. apply (Hext [] []), extends_refl. }
  destruct (StatusCode response =? StatusOK)%Z.
  - destruct (negb _).
    + injection H as _ <-. apply (Hext [] []), extends_refl.
    + destruct (readAndClose_total (Body response) s1) as (y & s2 & Hrun & _ & Hext2).
      rewrite Hrun in H. injection H as _ <-. by eapply Hext.
  - edestruct (getFromRangeServer_loop_total c ctx endpoint uri expression n
                 (next_method response method)
                 (Some (ErrStatusNotOK (Status response) (StatusCode response))) s1)
      as (y & s2 & evs & ws & Hrun & _ & Hext2 & _); [by apply next_method_cases|].
    rewrite Hrun in H. injection H as _ <-. by eapply Hext.
Qed.

(** C5: the first attempt of an invocation is sent with PUT exactly when
    the GET URI (endpoint, question mark and escaped expression) is longer
    than 4096, and with GET otherwise; so an expression longer than 4096 is
    first sent with PUT (escaping never shortens a string). *)
Theorem C5_first_method c ctx expression s x s' request evs :
  getFromRangeServer c ctx expression s = Val x s' →
  trace s' = trace s ++ EvNext (server_of s) :: EvDo request :: evs →
  (Method request = MethodPut
   ↔ defaultQueryLengthThreshold < String.length (uri_of (server_of s) expression))
  ∧ (Method request = MethodGet
     ↔ String.length (uri_of (server_of s) expression) ≤ defaultQueryLengthThreshold)
  ∧ (String.length expression ≤ String.length (url_QueryEscape expression) →
     defaultQueryLengthThreshold < String.length expression →
     Method request = MethodPut).
Proof.
  intros Hrun Htr. rewrite getFromRangeServer_eq in Hrun.
  apply getFromRangeServer_loop_first in Hrun as [Hs | [evs' Hs]];
    [| |apply first_method_cases]; rewrite Hs in Htr; simpl in Htr;
    rewrite <- ?app_assoc in Htr; apply app_inv_head in Htr; [done|].
  injection Htr as <- _. rewrite request_of_method by apply first_method_cases.
  unfold first_method.
  assert (Hlen : String.length expression ≤ String.length (url_QueryEscape expression) →
                 String.length expression ≤ String.length (uri_of (server_of s) expression)).
  { unfold uri_of, endpoint_of. rewrite !string_length_app. lia. }
  destruct (Nat.ltb_spec defaultQueryLengthThreshold
              (String.length (uri_of (server_of s) expression))) as [Hthr|Hthr].
  - split; [done|]. split; [split; [done|lia]|done].
  - split; [split; [done|lia]|]. split; [split; [lia|done]|].
    intros Hesc Hlong. apply Hlen in Hesc. lia.
Qed.

Lemma attempt_next_eq c ctx expression s n method herr s1 response s2 method' :
  attempt_of c ctx expression s (S n) method herr s1 →
  ctx (world s1) = None →
  send c ctx (endpoint_of (server_of s)) (uri_of (server_of s) expression)
    expression method s1 = Val (inl response) s2 →
  StatusCode response ≠ StatusOK →
  next_method response method = method' →
  attempt_of c ctx expression s n method'
    (Some (ErrStatusNotOK (Status response) (StatusCode response))) s2.
Proof. intros Hat Hctx Hsend Hcode <-. by eapply attempt_next. Qed.

Lemma first_done_none ctx (ws : list W) :
  Forall (λ w, ctx w = None) ws → first_done ctx ws = None.
Proof. intros H. rewrite <- (app_nil_r ws). by rewrite first_done_app. Qed.

(** C2: when a GET attempt is answered with 414, the same invocation goes
    on with PUT, against the same endpoint and without another call of
    [Next], as long as one of its two tries is left.  When that GET was
    the first attempt and the PUT is answered with 200 and no
    RangeException header (and its body is read and closed without
    error), the resolver returns the body, the retry loop hands it over in
    its first iteration whatever the retry count and the attempt counter
    are, and [query] returns it. *)
Theorem C2_GET_414_then_PUT c ctx expression s :
  (∀ n herr s1 response s2,
     attempt_of c ctx expression s (S n) MethodGet herr s1 →
     ctx (world s1) = None →
     send c ctx (endpoint_of (server_of s)) (uri_of (server_of s) expression)
       expression MethodGet s1 = Val (inl response) s2 →
     StatusCode response = StatusRequestURITooLong →
     attempt_of c ctx expression s n MethodPut
       (Some (ErrStatusNotOK (Status response) (StatusCode response))) s2
     ∧ getFromRangeServer c ctx expression s
       = getFromRangeServer_loop c ctx (endpoint_of (server_of s))
           (uri_of (server_of s) expression) expression n MethodPut
           (Some (ErrStatusNotOK (Status response) (StatusCode response))) s2
     ∧ n ≤ 1
     ∧ rrs s2 = rrs s1
     ∧ ∃ x s' evs,
         getFromRangeServer c ctx expression s = Val x s'
         ∧ trace s' = trace s ++ EvNext (server_of s) :: evs
         ∧ Forall attempt_event evs
         ∧ length (List.filter is_Do evs) ≤ 2)
  ∧ (∀ response s2 response2 s3 buf w4 w5,
       first_method (server_of s) expression = MethodGet →
       ctx (world s) = None →
       send c ctx (endpoint_of (server_of s)) (uri_of (server_of s) expression)
         expression MethodGet (after_Next s) = Val (inl response) s2 →
       StatusCode response = StatusRequestURITooLong →
       ctx (world s2) = None →
       send c ctx (endpoint_of (server_of s)) (uri_of (server_of s) expression)
         expression MethodPut s2 = Val (inl response2) s3 →
       StatusCode response2 = StatusOK →
       Header_Get (respHeader response2) RangeExceptionKey = "" →
       ReadAll (Body response2) (world s3) = ((buf, None), w4) →
       Close (Body response2) w4 = (None, w5) →
       let s' := advance w5 (emit EvClose (advance w4 (emit EvReadAll s3))) in
       getFromRangeServer c ctx expression s = Val (buf, None) s'
       ∧ trace s'
         = trace s ++ [EvNext (server_of s);
                       EvDo (get_request ctx (uri_of (server_of s) expression));
                       EvDo (put_request ctx (endpoint_of (server_of s)) expression);
                       EvReadAll; EvClose]
       ∧ (∀ fuel attempts,
            query_goroutine (S fuel) c ctx expression attempts s
            = Val (Some (mkResponseResult (Some (newResponse buf)) None)) s')
       ∧ (ctx (world s3) = None → ctx w4 = None → ctx w5 = None →
          ∀ fuel pick,
            query (S fuel) pick c ctx expression s
            = (Returned (Some (newResponse buf)) None, s'))).
Proof.
  split.
  - intros n herr s1 response s2 Hat Hctx Hsend Hcode.
    assert (Hnot : StatusCode response ≠ StatusOK) by (by rewrite Hcode).
    assert (Hat2 : attempt_of c ctx expression s n MethodPut
                     (Some (ErrStatusNotOK (Status response) (StatusCode response))) s2).
    { eapply attempt_next_eq; [done..|]. unfold next_method. by rewrite Hcode. }
    split; [done|]. split; [by apply attempt_of_run|].
    apply attempt_of_inv in Hat as (_ & Hn & Hrr1 & _).
    pose proof Hat2 as (_ & _ & Hrr2 & _)%attempt_of_inv.
    split; [lia|]. split; [congruence|].
    destruct (getFromRangeServer_total c ctx expression s)
      as (x & s' & evs & ws & Hrun & _ & [Htr _ _] & Hev & Hlen).
    by exists x, s', evs.
  - intros response s2 response2 s3 buf w4 w5 Hm Hctx Hsend Hcode Hctx2 Hsend2 Hcode2 Hmsg
      Hr Hc s'.
    pose proof (attempt_first c ctx expression s) as Hat. rewrite Hm in Hat.
    assert (Hat2 : attempt_of c ctx expression s 1 MethodPut
                     (Some (ErrStatusNotOK (Status response) (StatusCode response))) s2).
    { eapply attempt_next_eq; [done..|by rewrite Hcode|]. unfold next_method. by rewrite Hcode. }
    assert (Hrun : getFromRangeServer c ctx expression s = Val (buf, None) s').
    { rewrite (attempt_of_run _ _ _ _ _ _ _ _ Hat2), getFromRangeServer_loop_S, Hctx2, Hsend2,
        Hcode2, Hmsg.
      simpl. by rewrite (readAndClose_eq _ _ _ _ _ _ _ Hr Hc). }
    apply send_Val_inl in Hsend as (_ & w2 & _ & Hs2).
    apply send_Val_inl in Hsend2 as (_ & w3 & _ & Hs3).
    assert (Hgo : ∀ fuel attempts,
              query_goroutine (S fuel) c ctx expression attempts s
              = Val (Some (mkResponseResult (Some (newResponse buf)) None)) s').
    { intros fuel attempts. rewrite (query_goroutine_S _ _ _ _ _ _ _ _ _ Hrun).
      unfold query_stops. by rewrite orb_true_r. }
    split; [done|]. split.
    { unfold s'. rewrite Hs3, Hs2. simpl. by rewrite <- !app_assoc. }
    split; [done|]. intros Hctx3 Hctx4 Hctx5 fuel pick.
    unfold query. rewrite Hgo.
    assert (Hseen : seen s' = seen s ++ [w2; w3; w4; w5]).
    { unfold s'. rewrite Hs3, Hs2. simpl. by rewrite <- !app_assoc. }
    assert (Hw3 : world s3 = w3) by (by rewrite Hs3).
    assert (Hw2 : world s2 = w2) by (by rewrite Hs2).
    rewrite Hseen, drop_app_length. rewrite Hw3 in Hctx3. rewrite Hw2 in Hctx2.
    simpl. by rewrite Hctx, Hctx2, Hctx3, Hctx4, Hctx5.
Qed.

(** C10: when the first attempt is a PUT, because the GET URI is longer
    than the threshold, and it is answered with 414, the method is set to
    PUT again: the second and last attempt is the same PUT against the same
    endpoint, and when that one is answered with a status other than 200
    the resolver returns the StatusNotOK of this last response.  The trace
    holds one server selection and two PUT calls, and no GET. *)
Theorem C10_PUT_414_repeats_PUT c ctx expression s response s2 :
  defaultQueryLengthThreshold < String.length (uri_of (server_of s) expression) →
  ctx (world s) = None →
  send c ctx (endpoint_of (server_of s)) (uri_of (server_of s) expression)
    expression MethodPut (after_Next s) = Val (inl response) s2 →
  StatusCode response = StatusRequestURITooLong →
  attempt_of c ctx expression s 1 MethodPut
    (Some (ErrStatusNotOK (Status response) (StatusCode response))) s2
  ∧ ∀ response2 s3,
      ctx (world s2) = None →
      send c ctx (endpoint_of (server_of s)) (uri_of (server_of s) expression)
        expression MethodPut s2 = Val (inl response2) s3 →
      StatusCode response2 ≠ StatusOK →
      getFromRangeServer c ctx expression s
      = Val ([], Some (ErrStatusNotOK (Status response2) (StatusCode response2))) s3
      ∧ trace s3
        = trace s ++ [EvNext (server_of s);
                      EvDo (put_request ctx (endpoint_of (server_of s)) expression);
                      EvDo (put_request ctx (endpoint_of (server_of s)) expression)].
Proof.
  intros Hlong Hctx Hsend Hcode.
  pose proof (attempt_first c ctx expression s) as Hat.
  unfold first_method in Hat. apply Nat.ltb_lt in Hlong. rewrite Hlong in Hat.
  assert (Hat2 : attempt_of c ctx expression s 1 MethodPut
                   (Some (ErrStatusNotOK (Status response) (StatusCode response))) s2).
  { eapply attempt_next_eq; [done..|by rewrite Hcode|]. unfold next_method. by rewrite Hcode. }
  split; [done|]. intros response2 s3 Hctx2 Hsend2 Hcode2.
  rewrite (attempt_of_run _ _ _ _ _ _ _ _ Hat2), getFromRangeServer_loop_S, Hctx2, Hsend2.
  apply Z.eqb_neq in Hcode2 as ->. split; [done|].
  apply send_Val_inl in Hsend as (_ & w2 & _ & ->).
  apply send_Val_inl in Hsend2 as (_ & w3 & _ & ->).
  simpl. by rewrite <- !app_assoc.
Qed.

(** ** A backend that always answers with the same failing status *)

Lemma selected_0 (rr : roundRobinStrings) :
  cursor rr < length (strings rr) → (roundRobinStrings_Next rr).1 = selected rr 0.
Proof. intros H. unfold selected. simpl. by rewrite Nat.add_0_r, Nat.mod_small. Qed.

Lemma selected_Next (rr : roundRobinStrings) k :
  cursor rr < length (strings rr) →
  selected (roundRobinStrings_Next rr).2 k = selected rr (S k).
Proof.
  intros H. unfold selected. simpl.
  rewrite Nat.Div0.add_mod_idemp_l. do 3 f_equal. lia.
Qed.

Lemma cursor_Next (rr : roundRobinStrings) :
  cursor rr < length (strings rr) →
  cursor (roundRobinStrings_Next rr).2 < length (strings (roundRobinStrings_Next rr).2).
Proof. intros H. simpl. apply Nat.mod_upper_bound. lia. Qed.

Section AlwaysNotOK.

Variables (c : Client W) (ctx : Ctx W) (expression status : string) (code : Z).
Hypothesis Hbackend : always_answers (httpClient c) status code.
Hypothesis Hcode : code ≠ StatusOK ∧ code ≠ StatusRequestURITooLong
                   ∧ code ≠ StatusMethodNotAllowed.
Hypothesis Hctx : ∀ w, ctx w = None.

Lemma getFromRangeServer_loop_not_OK endpoint uri n method herr s :
  method = MethodGet ∨ method = MethodPut →
  url_ParseError endpoint = None →
  url_ParseError uri = None →
  ∃ w, getFromRangeServer_loop c ctx endpoint uri expression (S n) method herr s
       = getFromRangeServer_loop c ctx endpoint uri expression n method
           (Some (ErrStatusNotOK status code))
           (advance w (emit (EvDo (request_of ctx endpoint uri expression method)) s)).
Proof.
  intros Hm He Hu. rewrite getFromRangeServer_loop_S, Hctx.
  destruct (Hbackend (request_of ctx endpoint uri expression method) (world s))
    as (response & w & Hdo & Hst & Hco).
  exists w.
  assert (send c ctx endpoint uri expression method s
          = Val (inl response)
              (advance w (emit (EvDo (request_of ctx endpoint uri expression method)) s)))
    as ->.
  { destruct Hm as [-> | ->].
    - rewrite send_Get, getQuery_eq by done. by apply Do_eq.
    - rewrite send_Put, putQuery_eq by done. by apply Do_eq. }
  destruct Hcode as (H200 & H414 & H405).
  unfold next_method. rewrite Hst, Hco.
  apply Z.eqb_neq in H200 as ->. apply Z.eqb_neq in H414 as ->.
  by apply Z.eqb_neq in H405 as ->.
Qed.

(** One invocation of the resolver against such a backend: one server
    selection, two transport calls with the same request, and the
    StatusNotOK of the backend's status. *)
Lemma getFromRangeServer_not_OK s :
  url_ParseError (endpoint_of (server_of s)) = None →
  url_ParseError (uri_of (server_of s) expression) = None →
  ∃ s' ws,
    getFromRangeServer c ctx expression s
    = Val ([], Some (ErrStatusNotOK status code)) s'
    ∧ rrs s' = (roundRobinStrings_Next (rrs s)).2
    ∧ extends s s' [EvNext (server_of s);
                    EvDo (first_request ctx (server_of s) expression);
                    EvDo (first_request ctx (server_of s) expression)] ws.
Proof.
  intros He Hu. rewrite getFromRangeServer_eq.
  pose proof (first_method_cases (server_of s) expression) as Hm.
  destruct (getFromRangeServer_loop_not_OK _ _ 1 _ None (after_Next s) Hm He Hu) as [w1 ->].
  edestruct (getFromRangeServer_loop_not_OK _ _ 0 _ (Some (ErrStatusNotOK status code))
               (advance w1 (emit (EvDo (first_request ctx (server_of s) expression))
                              (after_Next s))) Hm He Hu) as [w2 H2].
  unfold first_request in *. rewrite H2. simpl.
  eexists _, [w1; w2]. split; [done|]. split; [done|].
  split; simpl; by rewrite <- ?app_assoc.
Qed.

Hypothesis Hretry : retryCallback c (ErrStatusNotOK status code) = true.

(** An iteration of the retry loop that is not the last one. *)
Lemma query_goroutine_not_OK_retry fuel attempts s :
  attempts ≠ retryCount c →
  url_ParseError (endpoint_of (server_of s)) = None →
  url_ParseError (uri_of (server_of s) expression) = None →
  ∃ s' evs ws,
    query_goroutine (S fuel) c ctx expression attempts s
    = query_goroutine fuel c ctx expression (int_incr attempts) s'
    ∧ rrs s' = (roundRobinStrings_Next (rrs s)).2
    ∧ extends s s' evs ws
    ∧ List.filter (λ ev, negb (is_Sleep ev)) evs
      = [EvNext (server_of s);
         EvDo (first_request ctx (server_of s) expression);
         EvDo (first_request ctx (server_of s) expression)].
Proof.
  intros Hne He Hu.
  destruct (getFromRangeServer_not_OK s He Hu) as (s1 & ws & Hrun & Hrr & Hext).
  rewrite (query_goroutine_S _ _ _ _ _ _ _ _ _ Hrun).
  unfold query_stops. rewrite Hretry. apply Z.eqb_neq in Hne as ->. simpl.
  destruct (0 <? retryPause c)%Z.
  - eexists _, _, _. split; [done|]. split; [done|].
    split; [exact (extends_trans _ _ _ _ _ _ _ Hext (extends_step s1 _ _))|done].
  - by eexists _, _, _.
Qed.

(** The last iteration of the retry loop. *)
Lemma query_goroutine_not_OK_last fuel s :
  url_ParseError (endpoint_of (server_of s)) = None →
  url_ParseError (uri_of (server_of s) expression) = None →
  ∃ s' ws,
    query_goroutine (S fuel) c ctx expression (retryCount c) s
    = Val (Some (mkResponseResult None (Some (ErrStatusNotOK status code)))) s'
    ∧ extends s s' [EvNext (server_of s);
                    EvDo (first_request ctx (server_of s) expression);
                    EvDo (first_request ctx (server_of s) expression)] ws.
Proof.
  intros He Hu.
  destruct (getFromRangeServer_not_OK s He Hu) as (s1 & ws & Hrun & Hrr & Hext).
  rewrite (query_goroutine_S _ _ _ _ _ _ _ _ _ Hrun).
  unfold query_stops. rewrite Z.eqb_refl. simpl. by exists s1, ws.
Qed.

End AlwaysNotOK.


End Theory.

(** * The claims on the concrete world *)



Lemma C3_witness :
  query_goroutine 1 Demo.c500 Background "%foo" 2 (Demo.start Demo.c500)
  = Val (Some (mkResponseResult None (Some Demo.err500)))
      (state_of (getFromRangeServer Demo.c500 Background "%foo" (Demo.start Demo.c500))).
Proof.
  apply (C3_retry_loop_stops_or_retries 0 Demo.c500 Background "%foo" 2 (Demo.start Demo.c500) []
           (Some Demo.err500)
           (state_of (getFromRangeServer Demo.c500 Background "%foo" (Demo.start Demo.c500)))).
  - vm_compute. reflexivity.
  - left. reflexivity.
Defined.

Lemma C6_witness :
  value_of (getFromRangeServer Demo.cbad Background "a b" (Demo.start Demo.cbad))
  = Some ([], Some (ErrRangeException "bad syntax")).
Proof.
  destruct (C6_RangeException_header Demo.cbad Background "a b" (Demo.start Demo.cbad) 1 MethodGet None
              (after_Next (Demo.start Demo.cbad))
              (Demo.reply "200 OK" 200 {[ RangeExceptionKey := ["bad syntax"] ]}
                 (Demo.body Demo.abc None None))
              (state_of (Demo.first_send Demo.cbad Background "a b" MethodGet))) as [Hrun _].
  - exact (attempt_first Demo.cbad Background "a b" (Demo.start Demo.cbad)).
  - reflexivity.
  - vm_compute. reflexivity.
  - reflexivity.
  - vm_compute. discriminate.
  - rewrite Hrun. reflexivity.
Defined.

Lemma C7_witness :
  value_of (getFromRangeServer Demo.cbroken Background "a b" (Demo.start Demo.cbroken))
  = Some ([], Some (ErrExternal "unexpected EOF")).
Proof.
  destruct (C7_body_read_then_closed Demo.cbroken Background "a b" (Demo.start Demo.cbroken) 1 MethodGet
              None (after_Next (Demo.start Demo.cbroken))
              (Demo.reply "200 OK" 200 ∅
                 (Demo.body Demo.abc (Some (ErrExternal "unexpected EOF"))
                    (Some (ErrExternal "close failed"))))
              (state_of (Demo.first_send Demo.cbroken Background "a b" MethodGet))
              Demo.abc (Some (ErrExternal "unexpected EOF")) 2
              (Some (ErrExternal "close failed")) 3)
    as (x & s' & Hrun & _ & _ & Hread & _).
  - exact (attempt_first Demo.cbroken Background "a b" (Demo.start Demo.cbroken)).
  - reflexivity.
  - vm_compute. reflexivity.
  - reflexivity.
  - vm_compute. reflexivity.
  - reflexivity.
  - reflexivity.
  - rewrite Hrun. simpl. rewrite (Hread _ eq_refl). reflexivity.
Defined.


Lemma C2_witness :
  query 1 true Demo.cput Background "%foo" (Demo.start Demo.cput)
  = (Returned (Some (newResponse Demo.abc)) None,
     state_of (getFromRangeServer Demo.cput Background "%foo" (Demo.start Demo.cput)))
  ∧ List.filter is_Next
      (trace (state_of (getFromRangeServer Demo.cput Background "%foo" (Demo.start Demo.cput))))
    = [EvNext "a:8081"].
Proof.
  split; [|vm_compute; reflexivity].
  refine (proj2 (proj2 (proj2
    (proj2 (C2_GET_414_then_PUT Demo.cput Background "%foo" (Demo.start Demo.cput))
       (Demo.reply "414 Request-URI Too Long" 414 ∅ (Demo.body [] None None))
       (state_of (Demo.first_send Demo.cput Background "%foo" MethodGet))
       (Demo.reply "200 OK" 200 ∅ (Demo.body Demo.abc None None))
       (state_of (send Demo.cput Background (endpoint_of "a:8081") (uri_of "a:8081" "%foo") "%foo"
                    MethodPut (state_of (Demo.first_send Demo.cput Background "%foo" MethodGet))))
       Demo.abc 3 4 _ _ _ _ _ _ _ _ _ _))) _ _ _ 0 true);
    try reflexivity; vm_compute; reflexivity.
Defined.

Lemma C10_witness :
  value_of (getFromRangeServer Demo.c414 Background Demo.long_expression (Demo.start Demo.c414))
  = Some ([], Some Demo.err414)
  ∧ List.map (λ ev : Event nat, match ev with EvDo request => Method (W:=nat) request | _ => "" end)
      (trace (state_of (getFromRangeServer Demo.c414 Background Demo.long_expression
                          (Demo.start Demo.c414))))
    = [""; "PUT"; "PUT"].
Proof.
  split; [|vm_compute; reflexivity].
  destruct (C10_PUT_414_repeats_PUT Demo.c414 Background Demo.long_expression (Demo.start Demo.c414)
              Demo.too_long (state_of (Demo.first_send Demo.c414 Background Demo.long_expression MethodPut)))
    as [_ H].
  - apply Nat.ltb_lt. vm_compute. reflexivity.
  - reflexivity.
  - vm_compute. reflexivity.
  - reflexivity.
  - destruct (H Demo.too_long
                (state_of (send Demo.c414 Background (endpoint_of "a:8081")
                             (uri_of "a:8081" Demo.long_expression) Demo.long_expression
                             MethodPut
                             (state_of (Demo.first_send Demo.c414 Background Demo.long_expression
                                          MethodPut))))) as [Hrun _].
    + reflexivity.
    + vm_compute. reflexivity.
    + discriminate.
    + rewrite Hrun. reflexivity.
Defined.

Lemma C5_witness :
  Method (put_request (W:=nat) Background (endpoint_of "a:8081") Demo.long_expression)
  = MethodPut
  ∧ Method (get_request (W:=nat) Background (uri_of (W:=nat) "a:8081" "%foo")) = MethodGet.
Proof.
  split.
  - destruct (C5_first_method Demo.c414 Background Demo.long_expression (Demo.start Demo.c414)
                ([], Some Demo.err414)
                (state_of (getFromRangeServer Demo.c414 Background Demo.long_expression
                             (Demo.start Demo.c414)))
                (put_request Background (endpoint_of "a:8081") Demo.long_expression)
                [EvDo (put_request Background (endpoint_of "a:8081") Demo.long_expression)])
      as (_ & _ & H).
    + vm_compute. reflexivity.
    + vm_compute. reflexivity.
    + apply H; [apply Nat.leb_le|apply Nat.ltb_lt]; vm_compute; reflexivity.
  - destruct (C5_first_method Demo.cput Background "%foo" (Demo.start Demo.cput) (Demo.abc, None)
                (state_of (getFromRangeServer Demo.cput Background "%foo" (Demo.start Demo.cput)))
                (get_request Background (uri_of "a:8081" "%foo"))
                [EvDo (put_request Background (endpoint_of "a:8081") "%foo");
                 EvReadAll; EvClose])
      as (_ & [_ H] & _).
    + vm_compute. reflexivity.
    + vm_compute. reflexivity.
    + apply H, Nat.leb_le. vm_compute. reflexivity.
Defined.

Lemma C8_witness :
  (∃ err, NewClient (mkConfig None None 1 0 []) = (None, Some err))
  ∧ (∃ err, NewClient (mkConfig None None (-1) 0 ["a:8081"]) = (None, Some err))
  ∧ (∃ err, NewClient (mkConfig None None 0 (-1) ["a:8081"]) = (None, Some err))
  ∧ ∃ c : Client nat, NewClient (mkConfig None None 2 0 Demo.two_servers) = (Some c, None)
                      ∧ retryCount c = 2%Z.
Proof.
  split; [|split; [|split]].
  - apply (proj1 (C8_NewClient_fails_iff_invalid (mkConfig None None 1 0 []))).
    left. reflexivity.
  - apply (proj1 (C8_NewClient_fails_iff_invalid (mkConfig None None (-1) 0 ["a:8081"]))).
    right; left. reflexivity.
  - apply (proj1 (C8_NewClient_fails_iff_invalid (mkConfig None None 0 (-1) ["a:8081"]))).
    right; right. reflexivity.
  - destruct (proj2 (C8_NewClient_fails_iff_invalid (mkConfig None None 2 0 Demo.two_servers)))
      as (c & Hc & Hcount & _).
    + intros [H|[H|H]]; discriminate.
    + exists c. split; [exact Hc|exact Hcount].
Defined.


(** * Further properties of the client *)

Section Further.

Context {W : Type} `{RT : Runtime W}.

Implicit Types (c : Client W) (ctx : Ctx W) (s : State W) (w : W).
Implicit Types (request : Request W) (response : Response W) (rc : ReadCloser W).
Implicit Types (err : error) (herr : option error) (n fuel : nat) (attempts : Z).
Implicit Types (endpoint uri expression method server : string).

(** ** What one invocation of the resolver does *)

Lemma request_of_cases ctx endpoint uri expression method :
  request_of ctx endpoint uri expression method = get_request ctx uri
  ∨ request_of ctx endpoint uri expression method = put_request ctx endpoint expression.
Proof. unfold request_of. case_match; auto. Qed.

Lemma getFromRangeServer_loop_footprint c ctx endpoint uri expression n :
  ∀ method herr s x s',
    method = MethodGet ∨ method = MethodPut →
    getFromRangeServer_loop c ctx endpoint uri expression n method herr s = Val x s' →
    rrs s' = rrs s
    ∧ ∃ evs, trace s' = trace s ++ evs
             ∧ Forall (resolver_event ctx endpoint uri expression) evs
             ∧ length (List.filter is_Do evs) ≤ n.
Proof.
  assert (Hdo : ∀ method, resolver_event ctx endpoint uri expression
                            (EvDo (request_of ctx endpoint uri expression method))).
  { intros method. unfold resolver_event.
    destruct (request_of_cases ctx endpoint uri expression method) as [-> | ->]; auto. }
  induction n as [|n IH]; intros method herr s x s' Hm Hrun.
  { injection Hrun as _ <-. split; [done|]. exists []. by rewrite app_nil_r. }
  rewrite getFromRangeServer_loop_S in Hrun.
  assert (Hnone : ∀ y, Val y s = Val x s' →
            rrs s' = rrs s
            ∧ ∃ evs, trace s' = trace s ++ evs
                     ∧ Forall (resolver_event ctx endpoint uri expression) evs
                     ∧ length (List.filter is_Do evs) ≤ S n).
  { intros y [= _ <-]. split; [done|]. exists []. rewrite app_nil_r. simpl. auto with lia. }
  destruct (ctx (world s)) as [err|]; [by eapply Hnone|].
  destruct (send_inv c ctx endpoint uri expression method s Hm)
    as [[err He] | (y & w & Hd & He)]; rewrite He in Hrun; [by eapply Hnone|].
  set (s1 := advance w (emit (EvDo (request_of ctx endpoint uri expression method)) s)) in *.
  assert (Hone : ∀ z, Val z s1 = Val x s' →
            rrs s' = rrs s
            ∧ ∃ evs, trace s' = trace s ++ evs
                     ∧ Forall (resolver_event ctx endpoint uri expression) evs
                     ∧ length (List.filter is_Do evs) ≤ S n).
  { intros z [= _ <-]. split; [done|]. eexists [_]. split; [done|].
    split; [by apply Forall_cons_2|simpl; lia]. }
  destruct y as [response|err]; [|by eapply Hone].
  destruct (StatusCode response =? StatusOK)%Z.
  - destruct (negb _); [by eapply Hone|].
    destruct (ReadAll (Body response) (world s1)) as [[buf rerr] w1] eqn:Hr.
    destruct (Close (Body response) w1) as [cerr w2] eqn:Hc.
    rewrite (readAndClose_eq _ _ _ _ _ _ _ Hr Hc) in Hrun. injection Hrun as _ <-.
    split; [done|]. eexists [_; EvReadAll; EvClose]. split; [simpl; by rewrite <- !app_assoc|].
    split; [|simpl; lia].
    apply Forall_cons_2; [done|]. unfold resolver_event.
    apply Forall_cons_2; [auto|]. apply Forall_cons_2; [auto|]. apply Forall_nil_2.
  - apply IH in Hrun as (Hrr & evs & Htr & Hev & Hlen); [|by apply next_method_cases].
    split; [done|].
    exists (EvDo (request_of ctx endpoint uri expression method) :: evs).
    split; [rewrite Htr; simpl; by rewrite <- app_assoc|].
    split; [by apply Forall_cons_2|simpl; lia].
Qed.

(** X1: one invocation of the resolver always returns and selects exactly
    one server, also when the context is already concluded; after that it
    makes at most two transport calls, each of them the GET request for the
    URI of that server or the PUT request for its endpoint, with the
    caller's context; besides these it only reads and closes a body.  It
    never sleeps and never selects a second server. *)
Theorem getFromRangeServer_footprint c ctx expression s :
  ∃ x s' evs,
    getFromRangeServer c ctx expression s = Val x s'
    ∧ rrs s' = (roundRobinStrings_Next (rrs s)).2
    ∧ trace s' = trace s ++ EvNext (server_of s) :: evs
    ∧ Forall (resolver_event ctx (endpoint_of (server_of s))
                (uri_of (server_of s) expression) expression) evs
    ∧ length (List.filter is_Do evs) ≤ 2.
Proof.
  destruct (getFromRangeServer_total c ctx expression s) as (x & s' & _ & _ & Hrun & _).
  exists x, s'. pose proof Hrun as Hrun'. rewrite getFromRangeServer_eq in Hrun'.
  apply getFromRangeServer_loop_footprint in Hrun' as (Hrr & evs & Htr & Hev & Hlen);
    [|apply first_method_cases].
  exists evs. split; [done|]. split; [done|].
  split; [rewrite Htr; simpl; by rewrite <- app_assoc|done].
Qed.

(** The result of the loop is the incoming [herr] (only when no try is
    left), an error with a nil buffer, or a buffer that was read from a body
    which was then closed. *)
Lemma getFromRangeServer_loop_result c ctx endpoint uri expression n :
  ∀ method herr s x s',
    method = MethodGet ∨ method = MethodPut →
    getFromRangeServer_loop c ctx endpoint uri expression n method herr s = Val x s' →
    (n = 0 ∧ x = ([], herr) ∧ s' = s)
    ∨ (∃ err, x = ([], Some err))
    ∨ (∃ buf evs, x = (buf, None) ∧ trace s' = trace s ++ evs ++ [EvReadAll; EvClose]).
Proof.
  induction n as [|n IH]; intros method herr s x s' Hm Hrun.
  { left. by injection Hrun as <- <-. }
  right. rewrite getFromRangeServer_loop_S in Hrun.
  destruct (ctx (world s)) as [err|]; [left; exists err; by injection Hrun as <- _|].
  destruct (send_inv c ctx endpoint uri expression method s Hm)
    as [[err He] | (y & w & Hd & He)]; rewrite He in Hrun;
    [left; exists err; by injection Hrun as <- _|].
  set (s1 := advance w (emit (EvDo (request_of ctx endpoint uri expression method)) s)) in *.
  destruct y as [response|err]; [|left; exists err; by injection Hrun as <- _].
  destruct (StatusCode response =? StatusOK)%Z.
  - destruct (negb _); [left; eexists; by injection Hrun as <- _|].
    destruct (ReadAll (Body response) (world s1)) as [[buf rerr] w1] eqn:Hr.
    destruct (Close (Body response) w1) as [cerr w2] eqn:Hc.
    rewrite (readAndClose_eq _ _ _ _ _ _ _ Hr Hc) in Hrun. injection Hrun as <- <-.
    destruct rerr as [err|]; [left; by exists err|].
    destruct cerr as [err|]; [left; by exists err|].
    right. exists buf, [EvDo (request_of ctx endpoint uri expression method)].
    split; [done|]. simpl. by rewrite <- !app_assoc.
  - apply IH in Hrun as [(_ & -> & _) | [[err ->] | (buf & evs & -> & Htr)]];
      [by left; eexists|by left; exists err| |by apply next_method_cases].
    right. exists buf, (EvDo (request_of ctx endpoint uri expression method) :: evs).
    split; [done|]. rewrite Htr. simpl. by rewrite <- !app_assoc.
Qed.

(** X2: the resolver never returns a nil error without having read a body
    to its end and closed it, and it never returns bytes together with an
    error: its result is an error with a nil buffer, or a buffer with a nil
    error after a ReadAll and a Close, which are then the last two calls of
    the invocation. *)
Theorem getFromRangeServer_result c ctx expression s x s' :
  getFromRangeServer c ctx expression s = Val x s' →
  (∃ err, x = ([], Some err))
  ∨ (∃ buf evs, x = (buf, None)
                ∧ trace s' = trace s ++ EvNext (server_of s) :: evs ++ [EvReadAll; EvClose]).
Proof.
  intros Hrun. rewrite getFromRangeServer_eq in Hrun.
  apply getFromRangeServer_loop_result in Hrun
      as [(? & _) | [? | (buf & evs & -> & Htr)]]; [done|by left| |apply first_method_cases].
  right. exists buf, evs. split; [done|]. rewrite Htr. simpl. by rewrite <- !app_assoc.
Qed.

(** X3: an error of the transport, or a request that cannot be built, ends
    the invocation at once with that error: there is no second local
    attempt, and the method is not switched. *)
Theorem getFromRangeServer_transport_error c ctx expression s n method herr s1 err s2 :
  attempt_of c ctx expression s (S n) method herr s1 →
  ctx (world s1) = None →
  send c ctx (endpoint_of (server_of s)) (uri_of (server_of s) expression)
    expression method s1 = Val (inr err) s2 →
  getFromRangeServer c ctx expression s = Val ([], Some err) s2
  ∧ (trace s2 = trace s1
     ∨ trace s2 = trace s1 ++ [EvDo (request_of ctx (endpoint_of (server_of s))
                                       (uri_of (server_of s) expression) expression method)]).
Proof.
  intros Hat Hctx Hsend.
  rewrite (attempt_of_run _ _ _ _ _ _ _ _ Hat), getFromRangeServer_loop_S, Hctx, Hsend.
  split; [done|].
  pose proof Hat as (Hm & _)%attempt_of_inv.
  destruct (send_inv c ctx (endpoint_of (server_of s)) (uri_of (server_of s) expression)
              expression method s1 Hm) as [[err' He] | (y & w & Hd & He)];
    rewrite He in Hsend; injection Hsend as _ <-; [by left|by right].
Qed.

(** X4: whatever its status, 405 and 414 included, a response other than
    200 to the last of the two tries makes the resolver fail with the
    StatusNotOK of that last response, not with the one recorded for the
    first try; its body is neither read nor closed. *)
Theorem getFromRangeServer_last_status c ctx expression s method herr s1 response s2 :
  attempt_of c ctx expression s 1 method herr s1 →
  ctx (world s1) = None →
  send c ctx (endpoint_of (server_of s)) (uri_of (server_of s) expression)
    expression method s1 = Val (inl response) s2 →
  StatusCode response ≠ StatusOK →
  getFromRangeServer c ctx expression s
  = Val ([], Some (ErrStatusNotOK (Status response) (StatusCode response))) s2.
Proof.
  intros Hat Hctx Hsend Hcode.
  rewrite (attempt_of_run _ _ _ _ _ _ _ _ Hat), getFromRangeServer_loop_S, Hctx, Hsend.
  by apply Z.eqb_neq in Hcode as ->.
Qed.

(** X5: a response 405 sets the method to GET whatever it was.  When the
    first attempt is a PUT (the GET URI is longer than the threshold) and
    is answered with 405, the second attempt is the GET for that same long
    URI, sent to the same server, and when it is answered with 200 and no
    RangeException header the resolver returns the body. *)
Theorem getFromRangeServer_405_then_GET c ctx expression s :
  (∀ n method herr s1 response s2,
     attempt_of c ctx expression s (S n) method herr s1 →
     ctx (world s1) = None →
     send c ctx (endpoint_of (server_of s)) (uri_of (server_of s) expression)
       expression method s1 = Val (inl response) s2 →
     StatusCode response = StatusMethodNotAllowed →
     attempt_of c ctx expression s n MethodGet
       (Some (ErrStatusNotOK (Status response) (StatusCode response))) s2)
  ∧ (∀ response s2 response2 s3 buf w4 w5,
       defaultQueryLengthThreshold < String.length (uri_of (server_of s) expression) →
       ctx (world s) = None →
       send c ctx (endpoint_of (server_of s)) (uri_of (server_of s) expression)
         expression MethodPut (after_Next s) = Val (inl response) s2 →
       StatusCode response = StatusMethodNotAllowed →
       ctx (world s2) = None →
       send c ctx (endpoint_of (server_of s)) (uri_of (server_of s) expression)
         expression MethodGet s2 = Val (inl response2) s3 →
       StatusCode response2 = StatusOK →
       Header_Get (respHeader response2) RangeExceptionKey = "" →
       ReadAll (Body response2) (world s3) = ((buf, None), w4) →
       Close (Body response2) w4 = (None, w5) →
       let s' := advance w5 (emit EvClose (advance w4 (emit EvReadAll s3))) in
       getFromRangeServer c ctx expression s = Val (buf, None) s'
       ∧ trace s'
         = trace s ++ [EvNext (server_of s);
                       EvDo (put_request ctx (endpoint_of (server_of s)) expression);
                       EvDo (get_request ctx (uri_of (server_of s) expression));
                       EvReadAll; EvClose]).
Proof.
  assert (Hflip : ∀ n method herr s1 response s2,
     attempt_of c ctx expression s (S n) method herr s1 →
     ctx (world s1) = None →
     send c ctx (endpoint_of (server_of s)) (uri_of (server_of s) expression)
       expression method s1 = Val (inl response) s2 →
     StatusCode response = StatusMethodNotAllowed →
     attempt_of c ctx expression s n MethodGet
       (Some (ErrStatusNotOK (Status response) (StatusCode response))) s2).
  { intros n method herr s1 response s2 Hat Hctx Hsend Hcode.
    eapply attempt_next_eq; [done..|by rewrite Hcode|]. unfold next_method. by rewrite Hcode. }
  split; [done|].
  intros response s2 response2 s3 buf w4 w5 Hlong Hctx Hsend Hcode Hctx2 Hsend2 Hcode2 Hmsg
    Hr Hc s'.
  pose proof (attempt_first c ctx expression s) as Hat.
  unfold first_method in Hat. apply Nat.ltb_lt in Hlong. rewrite Hlong in Hat.
  pose proof (Hflip _ _ _ _ _ _ Hat Hctx Hsend Hcode) as Hat2.
  rewrite (attempt_of_run _ _ _ _ _ _ _ _ Hat2), getFromRangeServer_loop_S, Hctx2, Hsend2,
    Hcode2, Hmsg.
  simpl. rewrite (readAndClose_eq _ _ _ _ _ _ _ Hr Hc). split; [done|].
  apply send_Val_inl in Hsend as (_ & w2 & _ & Hs2).
  apply send_Val_inl in Hsend2 as (_ & w3 & _ & Hs3).
  unfold s'. rewrite Hs3, Hs2. simpl. by rewrite <- !app_assoc.
Qed.

(** ** The retry loop as a whole *)

Lemma filter_Next_attempt (evs : list (Event W)) :
  Forall attempt_event evs → List.filter is_Next evs = [].
Proof.
  induction 1 as [|ev evs Hev _ IH]; [done|]. by destruct ev.
Qed.

Lemma filter_Sleep_attempt (evs : list (Event W)) :
  Forall attempt_event evs → List.filter is_Sleep evs = [].
Proof.
  induction 1 as [|ev evs Hev _ IH]; [done|]. by destruct ev.
Qed.

(** What the goroutine sends on the channel is a response without error or
    an error without response. *)
Lemma query_goroutine_result c ctx expression fuel :
  ∀ attempts s rr s',
    query_goroutine fuel c ctx expression attempts s = Val (Some rr) s' →
    (∃ buf, rr = mkResponseResult (Some (newResponse buf)) None)
    ∨ (∃ err, rr = mkResponseResult None (Some err)).
Proof.
  induction fuel as [|fuel IH]; intros attempts s rr s' Hrun; [done|].
  destruct (getFromRangeServer_total c ctx expression s)
    as ([buf oerr] & s1 & _ & _ & Hres & _).
  rewrite (query_goroutine_S _ _ _ _ _ _ _ _ _ Hres) in Hrun.
  destruct (query_stops c attempts oerr); [|by eapply IH].
  injection Hrun as <- _. destruct oerr as [err|]; [right; by exists err|left; by exists buf].
Qed.

(** With [k] retries left the loop sends a result after at least one and
    at most [k + 1] invocations of the resolver. *)
Lemma query_goroutine_ends c ctx expression k :
  ∀ attempts s,
    (0 ≤ attempts)%Z → (retryCount c < 2 ^ 63)%Z →
    (attempts + Z.of_nat k)%Z = retryCount c →
    ∃ rr s' evs,
      query_goroutine (S k) c ctx expression attempts s = Val (Some rr) s'
      ∧ trace s' = trace s ++ evs
      ∧ 1 ≤ length (List.filter is_Next evs) ≤ S k
      ∧ length (List.filter is_Do evs) ≤ 2 * length (List.filter is_Next evs)
      ∧ length (List.filter is_Sleep evs)
        = if (0 <? retryPause c)%Z then length (List.filter is_Next evs) - 1 else 0.
Proof.
  induction k as [|k IH]; intros attempts s H0 Hmax Hk;
    destruct (getFromRangeServer_total c ctx expression s)
      as ([buf oerr] & s1 & evs1 & ws1 & Hres & _ & [Htr1 _ _] & Hev1 & Hlen1);
    rewrite (query_goroutine_S _ _ _ _ _ _ _ _ _ Hres).
  - unfold query_stops. replace (attempts =? retryCount c)%Z with true
      by (symmetry; apply Z.eqb_eq; lia).
    simpl. eexists _, s1, _. split; [done|]. split; [done|].
    simpl. rewrite (filter_Next_attempt _ Hev1), (filter_Sleep_attempt _ Hev1).
    simpl. split; [lia|]. split; [lia|]. by destruct (0 <? _)%Z.
  - destruct (query_stops c attempts oerr).
    { eexists _, s1, _. split; [done|]. split; [done|].
      simpl. rewrite (filter_Next_attempt _ Hev1), (filter_Sleep_attempt _ Hev1).
      simpl. split; [lia|]. split; [lia|]. by destruct (0 <? _)%Z. }
    assert (Hinc : int_incr attempts = (attempts + 1)%Z).
    { unfold int_incr. rewrite Z.mod_small; lia. }
    rewrite Hinc.
    set (s2 := if (0 <? retryPause c)%Z
               then advance (time_Sleep (retryPause c) (world s1))
                      (emit (EvSleep (retryPause c)) s1)
               else s1).
    assert (Htr2 : ∃ evs2, trace s2 = trace s1 ++ evs2
                           ∧ List.filter is_Next evs2 = [] ∧ List.filter is_Do evs2 = []
                           ∧ length (List.filter is_Sleep evs2)
                             = if (0 <? retryPause c)%Z then 1 else 0).
    { unfold s2. destruct (0 <? retryPause c)%Z; [by eexists [_]|].
      exists []. by rewrite app_nil_r. }
    destruct Htr2 as (evs2 & Htr2 & Hn2 & Hd2 & Hs2).
    destruct (IH (attempts + 1)%Z s2) as (rr & s' & evs & Hrun & Htr & Hn & Hd & Hs); [lia..|].
    exists rr, s', ((EvNext (server_of s) :: evs1) ++ evs2 ++ evs).
    split; [done|]. split; [by rewrite Htr, Htr2, Htr1, <- !app_assoc|].
    rewrite !List.filter_app, !length_app, Hn2, Hd2, Hs2, Hs. simpl.
    rewrite (filter_Next_attempt _ Hev1), (filter_Sleep_attempt _ Hev1).
    simpl. split; [lia|]. split; [lia|].
    destruct (0 <? retryPause c)%Z; lia.
Qed.

(** X6: for a retry count in the range that [NewClient] accepts, the
    goroutine of [query] always sends a result, after at least one and at
    most [retryCount + 1] invocations of the resolver, hence after at most
    [2 * (retryCount + 1)] transport calls; the result is a response
    without error or an error without response. *)
Theorem query_goroutine_terminates c ctx expression s :
  (0 ≤ retryCount c < 2 ^ 63)%Z →
  ∃ rr s' evs,
    query_goroutine (S (Z.to_nat (retryCount c))) c ctx expression 0 s = Val (Some rr) s'
    ∧ trace s' = trace s ++ evs
    ∧ 1 ≤ length (List.filter is_Next evs) ≤ S (Z.to_nat (retryCount c))
    ∧ length (List.filter is_Do evs) ≤ 2 * S (Z.to_nat (retryCount c))
    ∧ ((∃ buf, rr = mkResponseResult (Some (newResponse buf)) None)
       ∨ (∃ err, rr = mkResponseResult None (Some err))).
Proof.
  intros Hrange.
  destruct (query_goroutine_ends c ctx expression (Z.to_nat (retryCount c)) 0 s)
    as (rr & s' & evs & Hrun & Htr & Hn & Hd & _); [lia..|].
  exists rr, s', evs. split; [done|]. split; [done|]. split; [done|].
  split; [lia|]. by eapply query_goroutine_result.
Qed.


(** ** What [query] returns *)

(** The outcomes of [query]: it is still waiting, or it returns a
    response alone, or an error alone. *)
Lemma query_cases fuel pick c ctx expression s :
  (query fuel pick c ctx expression s).1 = Pending
  ∨ (∃ resp, (query fuel pick c ctx expression s).1 = Returned (Some resp) None)
  ∨ (∃ err, (query fuel pick c ctx expression s).1 = Returned None (Some err)).
Proof.
  unfold query.
  destruct (query_goroutine_total c ctx expression fuel 0 s) as (sent & s1 & _ & _ & Hrun & _).
  rewrite Hrun. destruct sent as [rr|]; cycle 1.
  { destruct (first_done _ _) as [err|]; [right; right; by exists err|by left]. }
  assert (Hrr : (∃ resp, Returned (r rr) (e rr) = Returned (Some resp) None)
                ∨ (∃ err, Returned (r rr) (e rr) = Returned None (Some err))).
  { destruct (query_goroutine_result _ _ _ _ _ _ _ _ Hrun) as [[buf ->] | [err ->]];
      [left; by eexists|right; by exists err]. }
  right. destruct (first_done _ _) as [err|]; [right; by exists err|].
  destruct (ctx (world s1)) as [err|]; [|done].
  destruct pick; [right; by exists err|done].
Qed.

(** X8: when [query] returns, it returns a response and a nil error, or a
    nil response and an error, never both and never neither, whichever case
    of the [select] was taken. *)
Theorem query_returns_one fuel pick c ctx expression s res oerr s' :
  query fuel pick c ctx expression s = (Returned res oerr, s') →
  (∃ resp, res = Some resp ∧ oerr = None) ∨ (res = None ∧ ∃ err, oerr = Some err).
Proof.
  intros H.
  destruct (query_cases fuel pick c ctx expression s) as [Hq | [[resp Hq] | [err Hq]]];
    rewrite H in Hq; simpl in Hq; [done| |].
  - injection Hq as -> ->. left. by exists resp.
  - injection Hq as -> ->. right. split; [done|by exists err].
Qed.

(** With a context that is concluded for good, no invocation reaches the
    transport. *)
Lemma query_goroutine_canceled c ctx expression err fuel :
  (∀ w, ctx w = Some err) →
  ∀ attempts s,
    ∃ res s' evs ws,
      query_goroutine fuel c ctx expression attempts s = Val res s'
      ∧ extends s s' evs ws
      ∧ Forall (λ ev, is_Next ev = true ∨ is_Sleep ev = true) evs
      ∧ (∀ rr, res = Some rr → rr = mkResponseResult None (Some err)).
Proof.
  intros Hctx. induction fuel as [|fuel IH]; intros attempts s.
  { exists None, s, [], []. split; [done|]. split; [apply extends_refl|]. by split. }
  assert (Hres : getFromRangeServer c ctx expression s = Val ([], Some err) (after_Next s)).
  { by rewrite getFromRangeServer_eq, getFromRangeServer_loop_S, Hctx. }
  rewrite (query_goroutine_S _ _ _ _ _ _ _ _ _ Hres).
  destruct (query_stops c attempts (Some err)).
  { eexists _, _, _, _. split; [done|]. split; [apply extends_after_Next|].
    split; [apply Forall_cons_2; [by left|apply Forall_nil_2]|by intros rr [= <-]]. }
  destruct (0 <? retryPause c)%Z.
  - edestruct IH as (res & s' & evs & ws & -> & Hext & Hev & Hrr).
    eexists res, s', _, _. split; [done|].
    split; [exact (extends_trans _ _ _ _ _ _ _
                     (extends_trans _ _ _ _ _ _ _ (extends_after_Next s)
                        (extends_step (after_Next s) _ _)) Hext)|].
    split; [|done]. simpl. apply Forall_cons_2; [by left|]. by apply Forall_cons_2; [right|].
  - edestruct IH as (res & s' & evs & ws & -> & Hext & Hev & Hrr).
    eexists res, s', _, _. split; [done|].
    split; [exact (extends_trans _ _ _ _ _ _ _ (extends_after_Next s) Hext)|].
    split; [|done]. simpl. by apply Forall_cons_2; [left|].
Qed.

(** X9: when the context is already concluded at the call of [query], and
    stays so, [query] returns the error of the context and a nil response
    for every number of iterations the goroutine gets and every choice of
    the [select]; the goroutine makes no transport call and reads no body:
    all it does is select servers and sleep between retries. *)
Theorem query_canceled_before_call fuel pick c ctx expression err s :
  (∀ w, ctx w = Some err) →
  ∃ s' evs,
    query fuel pick c ctx expression s = (Returned None (Some err), s')
    ∧ trace s' = trace s ++ evs
    ∧ Forall (λ ev, is_Next ev = true ∨ is_Sleep ev = true) evs.
Proof.
  intros Hctx.
  destruct (query_goroutine_canceled c ctx expression err fuel Hctx 0 s)
    as (res & s' & evs & ws & Hrun & [Htr Hseen Hworld] & Hev & Hrr).
  exists s', evs. split; [|done].
  unfold query. rewrite Hrun, Hseen, drop_app_length.
  destruct res as [rr|]; [|simpl; by rewrite Hctx].
  rewrite (Hrr rr eq_refl). destruct ws as [|w ws]; simpl.
  - rewrite Hctx. by destruct pick.
  - by rewrite Hctx.
Qed.

(** ** The exported byte queries *)

(** X10: [QueryBytes], which runs [query] with the background context,
    returns once the goroutine has had [retryCount + 1] iterations: it does
    not wait for ever, does not panic, does not call [Bytes] on a nil
    response, and the choice of the [select] does not matter.  It returns
    nil bytes whenever it returns an error. *)
Theorem QueryBytes_returns c expression s :
  (0 ≤ retryCount c < 2 ^ 63)%Z →
  ∃ buf oerr s',
    (∀ pick, QueryBytes (S (Z.to_nat (retryCount c))) pick c expression s
             = (BytesReturned buf oerr, s'))
    ∧ (oerr ≠ None → buf = []).
Proof.
  intros Hrange.
  destruct (query_goroutine_ends c Background expression (Z.to_nat (retryCount c)) 0 s)
    as (rr & s' & evs & Hrun & _); [lia..|].
  assert (Hq : ∀ pick, query (S (Z.to_nat (retryCount c))) pick c Background expression s
                       = (Returned (r rr) (e rr), s')).
  { intros pick. unfold query. rewrite Hrun.
    by rewrite first_done_none by (apply Forall_forall; by intros). }
  unfold QueryBytes.
  destruct (query_goroutine_result _ _ _ _ _ _ _ _ Hrun) as [[buf ->] | [err ->]].
  - exists buf, None, s'. split; [|done]. intros pick. by rewrite Hq.
  - exists [], (Some err), s'. split; [|done]. intros pick. by rewrite Hq.
Qed.

(** X11: [QueryBytesCtx] never calls [Bytes] on a nil response and never
    panics, whatever the context, the number of iterations the goroutine
    gets and the choice of the [select]; when it returns an error the
    bytes are nil. *)
Theorem QueryBytesCtx_safe fuel pick c ctx expression s :
  (QueryBytesCtx fuel pick c ctx expression s).1 = BytesPending
  ∨ ∃ buf oerr, (QueryBytesCtx fuel pick c ctx expression s).1 = BytesReturned buf oerr
                ∧ (oerr ≠ None → buf = []).
Proof.
  unfold QueryBytesCtx.
  destruct (query_cases fuel pick c ctx expression s) as [Hq | [[resp Hq] | [err Hq]]];
    destruct (query fuel pick c ctx expression s) as [q s']; simpl in Hq; subst q; simpl.
  - by left.
  - right. by exists (Bytes resp), None.
  - right. by exists [], (Some err).
Qed.

End Further.


(** * The further properties on the concrete world *)

Lemma getFromRangeServer_result_witness :
  ∃ evs,
    trace (state_of (getFromRangeServer Demo.c200 Background "a b" (Demo.start Demo.c200)))
    = trace (Demo.start Demo.c200) ++ EvNext "a:8081" :: evs ++ [EvReadAll; EvClose].
Proof.
  destruct (getFromRangeServer_result Demo.c200 Background "a b" (Demo.start Demo.c200)
              (Demo.abc, None)
              (state_of (getFromRangeServer Demo.c200 Background "a b" (Demo.start Demo.c200))))
    as [[err H] | (buf & evs & _ & Htr)].
  - vm_compute. reflexivity.
  - discriminate H.
  - exists evs. exact Htr.
Defined.

Lemma getFromRangeServer_transport_error_witness :
  getFromRangeServer Demo.crefused Background "a b" (Demo.start Demo.crefused)
  = Val ([], Some (ErrExternal "connection refused"))
      (state_of (Demo.first_send Demo.crefused Background "a b" MethodGet))
  ∧ List.filter is_Do
      (trace (state_of (Demo.first_send Demo.crefused Background "a b" MethodGet)))
    = [EvDo (get_request Background (uri_of "a:8081" "a b"))].
Proof.
  split; [|vm_compute; reflexivity].
  apply (getFromRangeServer_transport_error Demo.crefused Background "a b"
           (Demo.start Demo.crefused) 1 MethodGet None (after_Next (Demo.start Demo.crefused))).
  - exact (attempt_first Demo.crefused Background "a b" (Demo.start Demo.crefused)).
  - reflexivity.
  - vm_compute. reflexivity.
Defined.

Lemma getFromRangeServer_last_status_witness :
  value_of (getFromRangeServer Demo.c405 Background "%foo" (Demo.start Demo.c405))
  = Some ([], Some Demo.err405).
Proof.
  rewrite (getFromRangeServer_last_status Demo.c405 Background "%foo" (Demo.start Demo.c405)
             MethodGet (Some Demo.err405)
             (state_of (Demo.first_send Demo.c405 Background "%foo" MethodGet))
             (Demo.reply "405 Method Not Allowed" 405 ∅ (Demo.body Demo.abc None None))
             (state_of (send Demo.c405 Background (endpoint_of "a:8081") (uri_of "a:8081" "%foo")
                          "%foo" MethodGet
                          (state_of (Demo.first_send Demo.c405 Background "%foo" MethodGet))))).
  - reflexivity.
  - apply (attempt_next Demo.c405 Background "%foo" (Demo.start Demo.c405) 1 MethodGet None
             (after_Next (Demo.start Demo.c405))
             (Demo.reply "405 Method Not Allowed" 405 ∅ (Demo.body Demo.abc None None))
             (state_of (Demo.first_send Demo.c405 Background "%foo" MethodGet))).
    + exact (attempt_first Demo.c405 Background "%foo" (Demo.start Demo.c405)).
    + reflexivity.
    + vm_compute. reflexivity.
    + discriminate.
  - reflexivity.
  - vm_compute. reflexivity.
  - discriminate.
Defined.

Lemma getFromRangeServer_405_then_GET_witness :
  value_of (getFromRangeServer Demo.cget Background Demo.long_expression (Demo.start Demo.cget))
  = Some (Demo.abc, None)
  ∧ List.map (λ ev : Event nat, match ev with EvDo request => Method (W:=nat) request | _ => "" end)
      (trace (state_of (getFromRangeServer Demo.cget Background Demo.long_expression
                          (Demo.start Demo.cget))))
    = [""; "PUT"; "GET"; ""; ""].
Proof.
  split; [|vm_compute; reflexivity].
  destruct (proj2 (getFromRangeServer_405_then_GET Demo.cget Background Demo.long_expression
                     (Demo.start Demo.cget))
              (Demo.reply "405 Method Not Allowed" 405 ∅ (Demo.body [] None None))
              (state_of (Demo.first_send Demo.cget Background Demo.long_expression MethodPut))
              (Demo.reply "200 OK" 200 ∅ (Demo.body Demo.abc None None))
              (state_of (send Demo.cget Background (endpoint_of "a:8081")
                           (uri_of "a:8081" Demo.long_expression) Demo.long_expression MethodGet
                           (state_of (Demo.first_send Demo.cget Background Demo.long_expression
                                        MethodPut))))
              Demo.abc 3 4) as [Hrun _].
  - apply Nat.ltb_lt. vm_compute. reflexivity.
  - reflexivity.
  - vm_compute. reflexivity.
  - reflexivity.
  - reflexivity.
  - vm_compute. reflexivity.
  - reflexivity.
  - reflexivity.
  - reflexivity.
  - reflexivity.
  - rewrite Hrun. reflexivity.
Defined.

Lemma query_goroutine_terminates_witness :
  ∃ rr s' evs,
    query_goroutine 3 Demo.c500 Background "%foo" 0 (Demo.start Demo.c500) = Val (Some rr) s'
    ∧ trace s' = trace (Demo.start Demo.c500) ++ evs
    ∧ 1 ≤ length (List.filter is_Next evs) ≤ 3
    ∧ length (List.filter is_Do evs) ≤ 6.
Proof.
  destruct (query_goroutine_terminates Demo.c500 Background "%foo" (Demo.start Demo.c500))
    as (rr & s' & evs & Hrun & Htr & Hn & Hd & _).
  - simpl. lia.
  - exists rr, s', evs. split; [exact Hrun|]. split; [exact Htr|]. split; [exact Hn|exact Hd].
Defined.


Lemma query_returns_one_witness :
  ∃ resp,
    (query 1 true Demo.cput Background "%foo" (Demo.start Demo.cput)).1
    = Returned (Some resp) None.
Proof.
  destruct (query_returns_one 1 true Demo.cput Background "%foo" (Demo.start Demo.cput)
              (Some (newResponse Demo.abc)) None
              (state_of (getFromRangeServer Demo.cput Background "%foo" (Demo.start Demo.cput))))
    as [(resp & Hr & _) | [Hr _]].
  - vm_compute. reflexivity.
  - exists resp. rewrite <- Hr. vm_compute. reflexivity.
  - discriminate Hr.
Defined.

Lemma query_canceled_before_call_witness :
  ∃ s' evs,
    query 5 false Demo.c500 (Demo.canceled_at 0) "%foo" (Demo.start Demo.c500)
    = (Returned None (Some Demo.canceled), s')
    ∧ trace s' = trace (Demo.start Demo.c500) ++ evs
    ∧ Forall (λ ev, is_Next ev = true ∨ is_Sleep ev = true) evs.
Proof.
  apply (query_canceled_before_call 5 false Demo.c500 (Demo.canceled_at 0) "%foo" Demo.canceled
           (Demo.start Demo.c500)).
  intros w. reflexivity.
Defined.

Lemma QueryBytes_returns_witness :
  ∃ buf oerr s',
    (∀ pick, QueryBytes 1 pick Demo.c200 "a b" (Demo.start Demo.c200)
             = (BytesReturned buf oerr, s'))
    ∧ (oerr ≠ None → buf = []).
Proof.
  apply (QueryBytes_returns Demo.c200 "a b" (Demo.start Demo.c200)).
  simpl. lia.
Defined.
